(** * gemstone-tool-frontend: the [frontend-build] command

    A shallow embedding of [gemstone-tool-frontend.js]: the option check,
    the two passes (linting, bundling), [singleRun], and the watch mode's
    debounced rerun loop, followed by the properties proved about them.

    The third-party collaborators (the five linters, glob, the Webpack
    child process, Chokidar, the timers of the JavaScript runtime) are
    not part of the program: what they answer is an input of the model
    ([run_world], [event]), and what the program asks of them is
    recorded in a trace of [action]s. Text rendering (chalk, tables,
    code frames, the progress bar) is kept as structured output values.
    A collaborator that fails by itself (a linter or a file operation
    whose promise is rejected) is not modelled; the one rejection the
    program produces itself, [reject(stdout)], is. *)

From Stdlib Require Import ZArith Lia.
From stdpp Require Import base list strings.

Local Open Scope Z_scope.

(** ** JavaScript values that the program computes with *)

Module Js.

(** Only three kinds of value flow through [passed] and the return
    values of the passes. Numbers are integers here: the only numbers
    the program produces are results of the bitwise [&]. *)
Inductive value :=
| VUndefined
| VBool (b : bool)
| VNumber (n : Z).

(** ToInt32: wrap-around into the signed 32-bit range. *)
Definition wrap32 (n : Z) : Z := (n + 2 ^ 31) mod 2 ^ 32 - 2 ^ 31.

Definition to_int32 (v : value) : Z :=
  match v with
  | VUndefined => 0
  | VBool true => 1
  | VBool false => 0
  | VNumber n => wrap32 n
  end.

(** [a & b] *)
Definition bitand (a b : value) : value :=
  VNumber (wrap32 (Z.land (to_int32 a) (to_int32 b))).

(** ToBoolean, as used by [if (passed)]. *)
Definition truthy (v : value) : bool :=
  match v with
  | VUndefined => false
  | VBool b => b
  | VNumber n => negb (n =? 0)
  end.

(** What a rejected promise carries: [reject(stdout)] rejects with a
    string, [throw new Error(msg)] with an Error object. *)
Inductive thrown :=
| ThrownString (s : string)
| ThrownError (message : string).

(** A JavaScript object used as a set of keys ([changed = {}],
    [changed[path] = true], [Object.keys(changed)]): the own
    properties in insertion order. Keys are file paths; array-index
    keys, which enumerate first, are not told apart. *)
Definition object := list (string * bool).

Definition empty : object := [].

(** [o[k] = v]: overwrite in place, or append a new property. *)
Fixpoint set (k : string) (v : bool) (o : object) : object :=
  match o with
  | [] => [(k, v)]
  | (k', v') :: rest =>
      if decide (k' = k) then (k', v) :: rest else (k', v') :: set k v rest
  end.

(** [Object.keys(o)] *)
Definition keys (o : object) : list string := o.*1.

End Js.

Import Js.

(** ** Options, collaborators, observable actions *)

(** The eight options of the command (lines 44-61). *)
Record options := {
  cwd : string;
  debug : bool;
  verbose : bool;
  watch : bool;
  beep : bool;
  server : bool;
  env : string;
  tag : string
}.

(** The five source categories of [doLint] (lines 139-143). *)
Inductive category := JS | HTML | CSS | YAML | JSON.

#[global] Instance category_eq_dec : EqDecision category.
Proof. solve_decision. Defined.

Definition categories : list category := [JS; HTML; CSS; YAML; JSON].

(** Third argument of [doLint]: the key of [cfg.linting]. *)
Definition proc_of (c : category) : string :=
  match c with
  | JS => "eslint" | HTML => "htmlhint" | CSS => "stylelint"
  | YAML => "jsyaml" | JSON => "jsonlint"
  end.

(** Fourth argument of [doLint]: the glob pattern. *)
Definition ext_of (c : category) : string :=
  match c with
  | JS => "*.js" | HTML => "*.html" | CSS => "*.css"
  | YAML => "*.yaml" | JSON => "*.json"
  end.

Record finding := {
  f_ctx : category;
  f_filename : string;
  f_line : Z;
  f_column : Z;
  f_message : string
}.

(** What one category's collaborators answer: the files glob finds, the
    boolean the linter resolves with, and the findings it appends to
    [report.findings]. *)
Record lint_reply := {
  lr_files : list string;
  lr_passed : bool;
  lr_findings : list finding
}.

(** The report Webpack prints with [--json], as far as the program reads
    it. *)
Record stats := {
  st_errors : list string;
  st_warnings : list string;
  st_entrypoints : list string;
  st_chunks : list string;
  st_modules : list string
}.

(** The answers of the collaborators during one [singleRun]. *)
Record run_world := {
  lint_of : category -> lint_reply;
  bundler_stdout : string;
  bundler_code : Z
}.

(** What is written to [process.stderr], by the statement that writes it. *)
Inductive out :=
| OHeader                                           (* lines 70-74 *)
| OPass1Banner (e : string)                         (* lines 97-99 *)
| OLintTable (rows : list (category * nat * nat))   (* lines 146-172 *)
| OLintDetails (fs : list finding)                  (* lines 175-221 *)
| OPass2Banner (e : string)                         (* lines 231-232 *)
| OExecBundler                                      (* line 245 *)
| OParseError (raw : string)                        (* line 261 *)
| ONewline                                          (* line 270 *)
| OEntries (names : list string)                    (* lines 273-289 *)
| OChunks (names : list string)                     (* lines 292-312 *)
| OModules (names : list string)                    (* lines 315-349 *)
| OErrors (errs : list string)                      (* lines 352-356 *)
| OWarnings (warns : list string)                   (* lines 359-363 *)
| OFilesChanged (count : nat) (files : list string) (* lines 401-409 *)
| OIdle.                                            (* lines 415-416 *)

Inductive beep_arg :=
| BeepTimes (n : Z)               (* beep(1) *)
| BeepIntervals (ms : list Z).    (* beep([ 0, 100, 500 ]) *)

(** The calls the program makes on the outside world. *)
Inductive action :=
| Stderr (o : out)
| Chdir (dir : string)
| Glob (pattern : string)
| Lint (ctx : category) (proc : string) (files : list string)
| WriteFile (name : string)
| Spawn (args : list string)
| Unlink (name : string)
| Beep (a : beep_arg)
| Watch.

(** ** Asynchronous functions: a trace and how the promise settles *)

Inductive outcome (A : Type) :=
| Resolved (a : A)
| Rejected (e : thrown).
Arguments Resolved {A} a.
Arguments Rejected {A} e.

Definition M (A : Type) : Type := list action * outcome A.

#[global] Instance M_ret : MRet M := fun A a => ([], Resolved a).

#[global] Instance M_bind : MBind M := fun A B f m =>
  match m with
  | (t, Resolved a) => let '(t', r) := f a in (t ++ t', r)
  | (t, Rejected e) => (t, Rejected e)
  end.

Definition emit (a : action) : M unit := ([a], Resolved tt).
Definition reject {A} (e : thrown) : M A := ([], Rejected e).
Definition when (b : bool) (m : M unit) : M unit := if b then m else mret tt.

Definition trace {A} (m : M A) : list action := m.1.
Definition settled {A} (m : M A) : outcome A := m.2.

Section Build.

(** [JSON.parse] on the bundler's output, [None] when it throws. A
    document that parses is taken to have the shape of a Webpack
    report. *)
Variable JSON_parse : string -> option stats.

Variable opts : options.

(** *** PASS 1: Linting (lines 96-224) *)

(** [doLint], with the running value of [passed] threaded through:
    [passed &= await linter(...)]. *)
Definition doLint (w : run_world) (ctx : category) (passed : value) : M value :=
  let r := lint_of w ctx in
  emit (Glob (ext_of ctx));;
  emit (Lint ctx (proc_of ctx) (lr_files r));;
  mret (bitand passed (VBool (lr_passed r))).

(** [report.findings] after the five linters ran. *)
Definition all_findings (w : run_world) : list finding :=
  concat (map (fun c => lr_findings (lint_of w c)) categories).

(** [mkstat]: one row of the table. *)
Definition mkstat (w : run_world) (ctx : category) : category * nat * nat :=
  (ctx, length (lr_files (lint_of w ctx)),
   length (filter (fun f => f_ctx f = ctx) (all_findings w))).

Definition Pass1 (w : run_world) : M value :=
  emit (Stderr (OPass1Banner (env opts)));;
  passed ← doLint w JS (VBool true);
  passed ← doLint w HTML passed;
  passed ← doLint w CSS passed;
  passed ← doLint w YAML passed;
  passed ← doLint w JSON passed;
  emit (Stderr (OLintTable (map (mkstat w) categories)));;
  emit (Stderr (OLintDetails (all_findings w)));;
  mret passed.

(** *** PASS 2: Bundling (lines 230-366) *)

Definition wpcFile : string := ".gemstone.webpack.js".

(** [require.resolve("webpack/bin/webpack.js")], unresolved. *)
Definition webpackCli : string := "webpack/bin/webpack.js".

(** The promise of lines 244-269. After [reject(stdout)] the handler
    goes on to [resolve(stats)], which no longer changes a settled
    promise. *)
Definition spawnWebpack (w : run_world) : M stats :=
  emit (Stderr OExecBundler);;
  emit (Spawn ([webpackCli; "--config"; wpcFile; "--json"]
               ++ (if debug opts then ["--debug"] else [])));;
  emit (Unlink wpcFile);;
  match JSON_parse (bundler_stdout w) with
  | None =>
      emit (Stderr (OParseError (bundler_stdout w)));;
      reject (ThrownString (bundler_stdout w))
  | Some st =>
      if bundler_code w =? 0 then mret st else mret st
  end.

Definition Pass2 (w : run_world) : M value :=
  emit (Stderr (OPass2Banner (env opts)));;
  emit (WriteFile wpcFile);;
  st ← spawnWebpack w;
  emit (Stderr ONewline);;
  when ((length (st_errors st) =? 0)%nat)
       (emit (Stderr (OEntries (st_entrypoints st))));;
  when ((length (st_errors st) =? 0)%nat)
       (emit (Stderr (OChunks (st_chunks st))));;
  when ((length (st_errors st) =? 0)%nat)
       (emit (Stderr (OModules (st_modules st))));;
  when ((0 <? length (st_errors st))%nat)
       (emit (Stderr (OErrors (st_errors st))));;
  when ((0 <? length (st_warnings st))%nat)
       (emit (Stderr (OWarnings (st_warnings st))));;
  mret (VBool ((length (st_errors st) =? 0)%nat
               && (length (st_warnings st) =? 0)%nat)).

(** *** MAIN: [singleRun] (lines 373-383) *)

(** The body of [singleRun]; the value is that of its local variable
    [passed] when the body ends. *)
Definition singleRun_passed (w : run_world) : M value :=
  passed ← Pass1 w;
  passed ← (if truthy passed then Pass2 w else mret passed);
  when (beep opts)
       (if truthy passed
        then emit (Beep (BeepTimes 1))
        else emit (Beep (BeepIntervals [0; 100; 500])));;
  mret passed.

(** [singleRun] has no [return] statement: it resolves with
    [undefined]. *)
Definition singleRun (w : run_world) : M value :=
  singleRun_passed w;;
  mret VUndefined.

End Build.

(** ** Watch mode: the closure state and the runtime around it *)

(** The six variables of lines 390-395, and what the JavaScript runtime
    holds for the closure: the clock (milliseconds), the outstanding
    timeouts (every one of them calls [handler]), the invocations of
    [handler] suspended at [await singleRun()], and what was written
    so far. *)
Record watcher := {
  first : bool;
  ready : bool;
  need : bool;
  changed : object;
  timer : option nat;
  running : bool;
  clock : Z;
  next_timeout : nat;
  timeouts : list (nat * Z);
  in_flight : nat;
  log : list action
}.

Definition set_first (b : bool) (s : watcher) : watcher :=
  {| first := b; ready := ready s; need := need s; changed := changed s;
     timer := timer s; running := running s; clock := clock s;
     next_timeout := next_timeout s; timeouts := timeouts s;
     in_flight := in_flight s; log := log s |}.

Definition set_ready (b : bool) (s : watcher) : watcher :=
  {| first := first s; ready := b; need := need s; changed := changed s;
     timer := timer s; running := running s; clock := clock s;
     next_timeout := next_timeout s; timeouts := timeouts s;
     in_flight := in_flight s; log := log s |}.

Definition set_need (b : bool) (s : watcher) : watcher :=
  {| first := first s; ready := ready s; need := b; changed := changed s;
     timer := timer s; running := running s; clock := clock s;
     next_timeout := next_timeout s; timeouts := timeouts s;
     in_flight := in_flight s; log := log s |}.

Definition set_changed (o : object) (s : watcher) : watcher :=
  {| first := first s; ready := ready s; need := need s; changed := o;
     timer := timer s; running := running s; clock := clock s;
     next_timeout := next_timeout s; timeouts := timeouts s;
     in_flight := in_flight s; log := log s |}.

Definition set_timer (t : option nat) (s : watcher) : watcher :=
  {| first := first s; ready := ready s; need := need s; changed := changed s;
     timer := t; running := running s; clock := clock s;
     next_timeout := next_timeout s; timeouts := timeouts s;
     in_flight := in_flight s; log := log s |}.

Definition set_running (b : bool) (s : watcher) : watcher :=
  {| first := first s; ready := ready s; need := need s; changed := changed s;
     timer := timer s; running := b; clock := clock s;
     next_timeout := next_timeout s; timeouts := timeouts s;
     in_flight := in_flight s; log := log s |}.

Definition set_clock (t : Z) (s : watcher) : watcher :=
  {| first := first s; ready := ready s; need := need s; changed := changed s;
     timer := timer s; running := running s; clock := t;
     next_timeout := next_timeout s; timeouts := timeouts s;
     in_flight := in_flight s; log := log s |}.

Definition set_timeouts (n : nat) (l : list (nat * Z)) (s : watcher) : watcher :=
  {| first := first s; ready := ready s; need := need s; changed := changed s;
     timer := timer s; running := running s; clock := clock s;
     next_timeout := n; timeouts := l;
     in_flight := in_flight s; log := log s |}.

Definition set_in_flight (n : nat) (s : watcher) : watcher :=
  {| first := first s; ready := ready s; need := need s; changed := changed s;
     timer := timer s; running := running s; clock := clock s;
     next_timeout := next_timeout s; timeouts := timeouts s;
     in_flight := n; log := log s |}.

Definition write (t : list action) (s : watcher) : watcher :=
  {| first := first s; ready := ready s; need := need s; changed := changed s;
     timer := timer s; running := running s; clock := clock s;
     next_timeout := next_timeout s; timeouts := timeouts s;
     in_flight := in_flight s; log := log s ++ t |}.

(** The outstanding timeouts without the one called [id]. *)
Fixpoint drop_timeout (id : nat) (l : list (nat * Z)) : list (nat * Z) :=
  match l with
  | [] => []
  | (id', due) :: rest =>
      if (id' =? id)%nat then drop_timeout id rest
      else (id', due) :: drop_timeout id rest
  end.

(** When the timeout called [id] is due, if it is outstanding. *)
Fixpoint due_of (id : nat) (l : list (nat * Z)) : option Z :=
  match l with
  | [] => None
  | (id', due) :: rest => if (id' =? id)%nat then Some due else due_of id rest
  end.

(** [setTimeout(handler, delay)]: a fresh id, due [delay] from now. *)
Definition setTimeout (delay : Z) (s : watcher) : nat * watcher :=
  let id := next_timeout s in
  (id, set_timeouts (S id) (timeouts s ++ [(id, clock s + delay)]) s).

(** [clearTimeout(id)]: no effect on a timeout that fired already. *)
Definition clearTimeout (id : nat) (s : watcher) : watcher :=
  set_timeouts (next_timeout s) (drop_timeout id (timeouts s)) s.

(** The runtime drops a timeout from its list when it runs the callback. *)
Definition expire (id : nat) (s : watcher) : watcher :=
  set_timeouts (next_timeout s) (drop_timeout id (timeouts s)) s.

(** [if (timer !== null) clearTimeout(timer); timer = setTimeout(handler, delay)] *)
Definition reschedule (delay : Z) (s : watcher) : watcher :=
  let s := match timer s with
           | Some id => clearTimeout id s
           | None => s
           end in
  let '(id, s) := setTimeout delay s in
  set_timer (Some id) s.

(** [watcher.on("ready", ...)] (lines 437-441) *)
Definition on_ready (s : watcher) : watcher :=
  let '(id, s) := setTimeout 0 s in
  set_ready true (set_timer (Some id) s).

(** [watcher.on("all", (ev, path) => ...)] (lines 442-453) *)
Definition on_all (ev path : string) (s : watcher) : watcher :=
  if ready s then
    let s := set_need true s in
    let s := set_changed (Js.set path true (changed s)) s in
    if negb (running s) then reschedule 1000 s else s
  else s.

(** [handler], up to the point where it waits for [singleRun()]
    (lines 399-414). *)
Definition handler_start (s : watcher) : watcher :=
  let s := set_running true s in
  let s := if negb (first s)
           then write [Stderr (OFilesChanged (length (keys (changed s)))
                                             (keys (changed s)))] s
           else s in
  let s := set_first false s in
  let s := set_need false s in
  let s := set_changed Js.empty s in
  set_in_flight (S (in_flight s)) s.

Section Watch.

Variable JSON_parse : string -> option stats.
Variable opts : options.

(** [handler], from the point where [singleRun()] settles
    (lines 414-424). A rejection leaves the function at the [await]:
    nothing below it runs. *)
Definition handler_resume (w : run_world) (s : watcher) : watcher :=
  let s := set_in_flight (pred (in_flight s)) s in
  let r := singleRun JSON_parse opts w in
  let s := write (trace r) s in
  match settled r with
  | Rejected _ => s
  | Resolved _ =>
      let s := write [Stderr OIdle] s in
      let s := set_running false s in
      if need s then reschedule 0 s else s
  end.

(** What can happen to the closure. Chokidar emits [ready] once; a
    timeout fires once, not before it is due; a run settles only if
    one is in flight. *)
Inductive event :=
| Elapse (d : Z)
| WatcherReady
| WatcherAll (ev path : string)
| TimerFires (id : nat)
| RunSettles (w : run_world).

Definition step (s : watcher) (e : event) : option watcher :=
  match e with
  | Elapse d =>
      if 0 <=? d then Some (set_clock (clock s + d) s) else None
  | WatcherReady =>
      if ready s then None else Some (on_ready s)
  | WatcherAll ev path =>
      Some (on_all ev path s)
  | TimerFires id =>
      match due_of id (timeouts s) with
      | Some due =>
          if due <=? clock s
          then Some (handler_start (expire id s))
          else None
      | None => None
      end
  | RunSettles w =>
      if (0 <? in_flight s)%nat then Some (handler_resume w s) else None
  end.

Fixpoint exec (evs : list event) (s : watcher) : option watcher :=
  match evs with
  | [] => Some s
  | e :: evs' =>
      match step s e with
      | Some s' => exec evs' s'
      | None => None
      end
  end.

(** *** The command (lines 64-460) *)

(** [opts.env.match(/^(?:production|development)$/)]: without the
    [m] flag the anchors are the ends of the string, so the pattern
    matches the two words and nothing else. *)
Definition env_matches (e : string) : bool :=
  String.eqb e "production" || String.eqb e "development".

Definition quote : string := String (Ascii.ascii_of_nat 34) EmptyString.

Definition invalid_environment (e : string) : thrown :=
  ThrownError ("invalid environment " +:+ quote +:+ e +:+ quote).

(** The closure state of lines 390-395, with what was written before
    the watcher was created. *)
Definition start_watching (written : list action) : watcher :=
  {| first := true; ready := false; need := false; changed := Js.empty;
     timer := None; running := false; clock := 0;
     next_timeout := 0; timeouts := []; in_flight := 0;
     log := written |}.

(** How a call of [func] ends: its promise settles, or (watch mode)
    it never does and the watcher lives on. *)
Inductive ending :=
| Settled (r : outcome string)
| Watching (s : watcher).

Definition func (w : run_world) : list action * ending :=
  if negb (env_matches (env opts)) then
    ([], Settled (Rejected (invalid_environment (env opts))))
  else
    let pre := Stderr OHeader
               :: (if negb (String.eqb (cwd opts) ".") then [Chdir (cwd opts)] else []) in
    if watch opts then
      (pre ++ [Watch], Watching (start_watching (pre ++ [Watch])))
    else
      let run := singleRun JSON_parse opts w in
      (pre ++ trace run,
       Settled match settled run with
               | Resolved _ => Resolved EmptyString
               | Rejected e => Rejected e
               end).

End Watch.

(** ** Vocabulary of the properties *)

(** The categories whose linter a trace shows as called, in order. *)
Definition linters_called (t : list action) : list category :=
  omap (fun a => match a with Lint c _ _ => Some c | _ => None end) t.

(** Every linter resolved with [true]. *)
Definition lint_passed (w : run_world) : bool :=
  forallb (fun c => lr_passed (lint_of w c)) categories.

(** The actions that only [Pass2] performs. *)
Definition of_Pass2 (a : action) : bool :=
  match a with
  | WriteFile _ | Spawn _ | Unlink _ => true
  | Stderr (OPass2Banner _) | Stderr OExecBundler | Stderr (OParseError _)
  | Stderr ONewline | Stderr (OEntries _) | Stderr (OChunks _)
  | Stderr (OModules _) | Stderr (OErrors _) | Stderr (OWarnings _) => true
  | _ => false
  end.

(** The report has no error and no warning. *)
Definition clean (st : stats) : bool :=
  (length (st_errors st) =? 0)%nat && (length (st_warnings st) =? 0)%nat.

(** The "files changed" summaries in what was written. *)
Definition summaries (t : list action) : list (list string) :=
  omap (fun a => match a with
                 | Stderr (OFilesChanged _ files) => Some files
                 | _ => None
                 end) t.

Definition is_run_start (e : event) : bool :=
  match e with TimerFires _ => true | _ => false end.

(** A run was started in the course of the events. *)
Definition has_run (evs : list event) : bool := existsb is_run_start evs.

(** The paths of the change events since the last start of a run. *)
Definition paths_since_run (evs : list event) : list string :=
  fold_left (fun acc e => match e with
                          | TimerFires _ => []
                          | WatcherAll _ path => acc ++ [path]
                          | _ => acc
                          end) evs [].


(** What holds of the watcher in every state it can reach: at most one
    timeout is outstanding, [timer] names it, and none is outstanding
    while [running]; ids are fresh; at most one run is in flight, and
    then [running] is set; nothing runs before the watcher is ready. *)
Definition inv (s : watcher) : Prop :=
  (timeouts s = []
   \/ exists id due, timeouts s = [(id, due)] /\ timer s = Some id
                     /\ running s = false /\ ready s = true)
  /\ (forall id, timer s = Some id -> (id < next_timeout s)%nat)
  /\ (in_flight s = 0%nat \/ (in_flight s = 1%nat /\ running s = true))
  /\ (ready s = false -> running s = false).

(** A burst of change events: each with the time since the event before
    it, the kind of change and the path. *)
Definition burst := list (Z * string * string).

Definition gap (c : Z * string * string) : Z := c.1.1.
Definition path_of (c : Z * string * string) : string := c.2.

Definition burst_events (b : burst) : list event :=
  b ≫= fun c => [Elapse (gap c); WatcherAll c.1.2 (path_of c)].

Definition duration (b : burst) : Z := foldr (fun c acc => gap c + acc) 0 b.

(** *** Sample inputs *)

Definition sample_options : options :=
  {| cwd := "."; debug := false; verbose := false; watch := false;
     beep := true; server := false; env := "development"; tag := EmptyString |}.

Definition watch_options : options :=
  {| cwd := "."; debug := false; verbose := false; watch := true;
     beep := false; server := false; env := "development"; tag := EmptyString |}.

Definition staging_options : options :=
  {| cwd := "."; debug := false; verbose := false; watch := false;
     beep := true; server := false; env := "staging"; tag := EmptyString |}.

Definition no_files (ok : bool) : lint_reply :=
  {| lr_files := []; lr_passed := ok; lr_findings := [] |}.

Definition one_finding : finding :=
  {| f_ctx := JS; f_filename := "src/app.js"; f_line := 3; f_column := 7;
     f_message := "Unexpected console statement." |}.

(** A report without errors or warnings, as Webpack prints it. *)
Definition clean_report : string :=
  "{" +:+ quote +:+ "errors" +:+ quote +:+ ":[],"
      +:+ quote +:+ "warnings" +:+ quote +:+ ":[],"
      +:+ quote +:+ "entrypoints" +:+ quote +:+ ":{},"
      +:+ quote +:+ "chunks" +:+ quote +:+ ":[],"
      +:+ quote +:+ "modules" +:+ quote +:+ ":[]}".

Definition clean_stats : stats :=
  {| st_errors := []; st_warnings := []; st_entrypoints := [];
     st_chunks := []; st_modules := [] |}.

(** [JSON.parse] on the two sample outputs: [clean_report] parses, any
    other text used below ("not json") does not. *)
Definition sample_parse (s : string) : option stats :=
  if decide (s = clean_report) then Some clean_stats else None.

(** Everything passes. *)
Definition clean_world : run_world :=
  {| lint_of := fun _ => no_files true;
     bundler_stdout := clean_report; bundler_code := 0 |}.

(** The linters pass, the bundler prints text that is not JSON. *)
Definition garbled_world : run_world :=
  {| lint_of := fun _ => no_files true;
     bundler_stdout := "not json"; bundler_code := 2 |}.

(** The script linter reports one finding. *)
Definition failing_lint_world : run_world :=
  {| lint_of := fun c =>
       match c with
       | JS => {| lr_files := ["src/app.js"]; lr_passed := false;
                  lr_findings := [one_finding] |}
       | _ => no_files true
       end;
     bundler_stdout := clean_report; bundler_code := 0 |}.

(** The watcher as [func] leaves it in watch mode with [watch_options]. *)
Definition sample_watcher : watcher := start_watching [Stderr OHeader; Watch].

(** ** The passes *)

(** ** Further vocabulary *)

(** How often an action, or an event, of some kind occurs. *)
Definition count {A} (p : A -> bool) (l : list A) : nat :=
  length (List.filter p l).

Definition is_idle_banner (a : action) : bool :=
  match a with Stderr OIdle => true | _ => false end.

(** The event is a run that settles by resolving. *)
Definition is_resolved_run (JSON_parse : string -> option stats) (opts : options)
    (e : event) : bool :=
  match e with
  | RunSettles w =>
      match settled (singleRun JSON_parse opts w) with
      | Resolved _ => true
      | Rejected _ => false
      end
  | _ => false
  end.

(** The files a trace creates and removes, the processes it starts and
    the beeps it sounds, each in order. *)
Definition files_written (t : list action) : list string :=
  omap (fun a => match a with WriteFile n => Some n | _ => None end) t.

Definition files_unlinked (t : list action) : list string :=
  omap (fun a => match a with Unlink n => Some n | _ => None end) t.

Definition spawned (t : list action) : list (list string) :=
  omap (fun a => match a with Spawn args => Some args | _ => None end) t.

Definition beeps (t : list action) : list beep_arg :=
  omap (fun a => match a with Beep b => Some b | _ => None end) t.


(** The same answers of the collaborators with another exit code. *)
Definition with_code (code : Z) (w : run_world) : run_world :=
  {| lint_of := lint_of w; bundler_stdout := bundler_stdout w;
     bundler_code := code |}.

(** What holds besides [inv] in every state the watcher can reach: a
    timeout is due within the settle delay; [need] tells whether the
    change set is non-empty; a pending change has its rerun scheduled
    unless a run is going on; a timeout stands for the first build or
    for a pending change; runs only start once the watcher is ready. *)
Definition inv_schedule (s : watcher) : Prop :=
  (forall id due, (id, due) ∈ timeouts s -> due <= clock s + 1000)
  /\ (need s = true <-> changed s <> Js.empty)
  /\ (need s = true -> running s = false -> timeouts s <> [])
  /\ (timeouts s <> [] -> first s = true \/ need s = true)
  /\ (first s = false -> ready s = true).

(** ** Text helpers of the reports (lines 27-37, 116-124, 322-326)

    JavaScript strings are sequences of UTF-16 code units; [length],
    [substr] and the [.] of a regular expression work on code units. *)

Module Text.

Definition text := list N.

Definition LF : N := 10.
Definition space : N := 32.
Definition bang : N := 33.
Definition dot : N := 46.

(** The code units that [.] does not match: LF, CR, U+2028, U+2029. *)
Definition is_line_terminator (c : N) : bool :=
  (c =? 10)%N || (c =? 13)%N || (c =? 8232)%N || (c =? 8233)%N.

(** [s.replace(/^/, "   ")]: the pattern matches once, at the start. *)
Definition replace_start (s : text) : text :=
  [space; space; space] ++ s.

(** [s.replace(/\n(.)/g, "\n   $1")]: scanning from the left, a line
    feed followed by a unit that [.] matches takes both; the scan goes
    on behind them. *)
Fixpoint replace_newlines (s : text) : text :=
  match s with
  | [] => []
  | a :: s' =>
      if (a =? LF)%N then
        match s' with
        | c :: rest =>
            if is_line_terminator c then a :: replace_newlines s'
            else a :: space :: space :: space :: c :: replace_newlines rest
        | [] => [a]
        end
      else a :: replace_newlines s'
  end.

(** [mktable] (lines 27-37); [table] stands for [table.table] applied
    with the merged configuration. *)
Definition mktable {D : Type} (table : D -> text) (data : D) : text :=
  replace_newlines (replace_start (table data)).

(** What is left of [s] behind the last [!] of its first line, if that
    line has one: the match of [/^.*!/], greedy, is all before it. *)
Fixpoint behind_last_bang (s : text) : option text :=
  match s with
  | [] => None
  | c :: rest =>
      if is_line_terminator c then None
      else match behind_last_bang rest with
           | Some t => Some t
           | None => if (c =? bang)%N then Some rest else None
           end
  end.

(** [name.replace(/^.*!/, "")] (line 324): the loaders in front of a
    module identifier are cut off. *)
Definition strip_loaders (name : text) : text :=
  match behind_last_bang name with
  | Some t => t
  | None => name
  end.

(** The message as the progress callback passes it on (lines 117-118):
    [if (msg.length > 40) msg = msg.substr(0, 40) + "..."]. *)
Definition clip_message (msg : text) : text :=
  if (40 <? length msg)%nat then take 40 msg ++ [dot; dot; dot] else msg.

Section Progress.

(** The numbers of the progress bar are floating-point; their
    arithmetic is left open. *)
Variable number : Type.
Variable plus minus : number -> number -> number.
Variable of_rounds : nat -> number.

(** One call of [progressBar.tick(delta, { msg })]. *)
Record tick := { tick_delta : number; tick_msg : text }.

(** The [progress] callback of [options] (lines 116-124), with the
    variables [rounds] and [progressCur] it reads and what
    [progressBar.complete] says after the tick; it yields the tick,
    whether a line feed is written, and the new [progressCur]. *)
Definition progress (rounds : nat) (progressCur : number) (complete : bool)
    (fraction : number) (msg : text) : tick * bool * number :=
  let msg := clip_message msg in
  let delta := minus (plus (of_rounds rounds) fraction) progressCur in
  ({| tick_delta := delta; tick_msg := msg |}, complete, plus progressCur delta).

End Progress.

(** An ASCII string as a text. *)
Definition of_string (s : string) : text :=
  map Ascii.N_of_ascii (String.list_ascii_of_string s).

(** *** Lines of a text, for the statements about [mktable] *)

(** The lines joined by line feeds. *)
Fixpoint join_lines (ls : list text) : text :=
  match ls with
  | [] => []
  | [l] => l
  | l :: ls' => l ++ LF :: join_lines ls'
  end.

(** The lines of a text: what stands between its line feeds. *)
Fixpoint split_lines (t : text) : list text :=
  match t with
  | [] => [[]]
  | c :: t' =>
      if (c =? LF)%N then [] :: split_lines t'
      else match split_lines t' with
           | l :: ls => (c :: l) :: ls
           | [] => [[c]]
           end
  end.

(** A line other than the first as [mktable] leaves it: indented if
    it starts with a unit that [.] matches. *)
Definition indent_line (l : text) : text :=
  match l with
  | [] => []
  | c :: _ => if is_line_terminator c then l else [space; space; space] ++ l
  end.

Definition indent_lines (ls : list text) : list text :=
  match ls with
  | [] => []
  | l :: ls' => ([space; space; space] ++ l) :: map indent_line ls'
  end.

End Text.

(** An action that differs by its constructor from every member of an
    explicit list is not in it. *)
Ltac absent :=
  let H := fresh "Hin" in
  intros H;
  repeat (apply elem_of_cons in H as [H|H]; [discriminate H|]);
  by apply elem_of_nil in H.

Lemma settled_bind {A B} (m : M A) (f : A -> M B) :
  settled (m ≫= f) =
    match settled m with
    | Resolved a => settled (f a)
    | Rejected e => Rejected e
    end.
Proof.
  destruct m as [t [a|e]]; cbn; [|reflexivity].
  destruct (f a); reflexivity.
Qed.

Lemma trace_bind {A B} (m : M A) (f : A -> M B) :
  trace (m ≫= f) =
    trace m ++ match settled m with
               | Resolved a => trace (f a)
               | Rejected e => []
               end.
Proof.
  destruct m as [t [a|e]]; cbn; [|by rewrite app_nil_r].
  destruct (f a); reflexivity.
Qed.

Section BuildFacts.

Variable JSON_parse : string -> option stats.
Variable opts : options.

Lemma bitand_flags (b1 b2 b3 b4 b5 : bool) :
  bitand (bitand (bitand (bitand (bitand (VBool true) (VBool b1)) (VBool b2))
                         (VBool b3)) (VBool b4)) (VBool b5)
  = VNumber (Z.b2z (b1 && b2 && b3 && b4 && b5)).
Proof. destruct b1, b2, b3, b4, b5; reflexivity. Qed.

(** What [Pass1] does and what it resolves with. *)
Lemma Pass1_unfold (w : run_world) :
  Pass1 opts w =
    (Stderr (OPass1Banner (env opts))
     :: (categories ≫= fun c =>
           [Glob (ext_of c); Lint c (proc_of c) (lr_files (lint_of w c))])
     ++ [Stderr (OLintTable (map (mkstat w) categories));
         Stderr (OLintDetails (all_findings w))],
     Resolved (VNumber (Z.b2z (lint_passed w)))).
Proof.
  unfold Pass1, doLint, lint_passed, categories. cbn.
  rewrite bitand_flags. do 3 f_equal. rewrite !andb_true_r, !andb_assoc. reflexivity.
Qed.

Lemma lint_passed_spec (w : run_world) :
  lint_passed w = true <-> forall c, lr_passed (lint_of w c) = true.
Proof.
  unfold lint_passed. rewrite forallb_forall. split.
  - intros H c. apply H. destruct c; cbn; tauto.
  - intros H c _. apply H.
Qed.



(** [Pass2] when the output does not parse. *)
Lemma Pass2_garbled (w : run_world) :
  JSON_parse (bundler_stdout w) = None ->
  Pass2 JSON_parse opts w =
    ([Stderr (OPass2Banner (env opts)); WriteFile wpcFile; Stderr OExecBundler;
      Spawn ([webpackCli; "--config"; wpcFile; "--json"]
             ++ (if debug opts then ["--debug"] else []));
      Unlink wpcFile; Stderr (OParseError (bundler_stdout w))],
     Rejected (ThrownString (bundler_stdout w))).
Proof.
  intros H. unfold Pass2, spawnWebpack. rewrite H. reflexivity.
Qed.

(** [Pass2] when the output parses. *)
Lemma Pass2_parsed (w : run_world) (st : stats) :
  JSON_parse (bundler_stdout w) = Some st ->
  settled (Pass2 JSON_parse opts w) = Resolved (VBool (clean st))
  /\ Forall (fun a => of_Pass2 a = true) (trace (Pass2 JSON_parse opts w))
  /\ Stderr (OParseError (bundler_stdout w)) ∉ trace (Pass2 JSON_parse opts w).
Proof.
  intros H. unfold clean, Pass2, spawnWebpack. rewrite H.
  destruct (bundler_code w =? 0); cbn;
    destruct (st_errors st), (st_warnings st); cbn;
    (split; [reflexivity | split; [repeat constructor | absent]]).
Qed.

(** How [singleRun] settles, and the value of [passed] at its end. *)
Lemma singleRun_passed_settled (w : run_world) :
  settled (singleRun_passed JSON_parse opts w) =
    if lint_passed w then
      match JSON_parse (bundler_stdout w) with
      | Some st => Resolved (VBool (clean st))
      | None => Rejected (ThrownString (bundler_stdout w))
      end
    else Resolved (VNumber 0).
Proof.
  unfold singleRun_passed. rewrite settled_bind, Pass1_unfold. cbn [settled snd].
  destruct (lint_passed w); cbn [Z.b2z truthy Z.eqb negb]; rewrite settled_bind.
  - destruct (JSON_parse (bundler_stdout w)) as [st|] eqn:E.
    + destruct (Pass2_parsed w st E) as [-> _].
      rewrite settled_bind. destruct (beep opts), (clean st); reflexivity.
    + rewrite (Pass2_garbled w E). reflexivity.
  - destruct (beep opts); reflexivity.
Qed.

Lemma singleRun_settled (w : run_world) :
  settled (singleRun JSON_parse opts w) =
    match settled (singleRun_passed JSON_parse opts w) with
    | Resolved _ => Resolved VUndefined
    | Rejected e => Rejected e
    end.
Proof.
  unfold singleRun. rewrite settled_bind.
  destruct (settled (singleRun_passed JSON_parse opts w)); reflexivity.
Qed.

Lemma singleRun_trace (w : run_world) :
  trace (singleRun JSON_parse opts w) = trace (singleRun_passed JSON_parse opts w).
Proof.
  unfold singleRun. rewrite trace_bind.
  destruct (settled (singleRun_passed JSON_parse opts w)); apply app_nil_r.
Qed.


Lemma singleRun_passed_trace (w : run_world) :
  trace (singleRun_passed JSON_parse opts w) =
    trace (Pass1 opts w)
    ++ (if lint_passed w then trace (Pass2 JSON_parse opts w) else [])
    ++ match settled (singleRun_passed JSON_parse opts w) with
       | Resolved v =>
           if beep opts
           then [Beep (if truthy v then BeepTimes 1 else BeepIntervals [0; 100; 500])]
           else []
       | Rejected _ => []
       end.
Proof.
  rewrite singleRun_passed_settled.
  unfold singleRun_passed. rewrite trace_bind. f_equal.
  rewrite Pass1_unfold. cbn [settled snd].
  destruct (lint_passed w); cbn [Z.b2z truthy Z.eqb negb]; rewrite trace_bind.
  - f_equal. destruct (JSON_parse (bundler_stdout w)) as [st|] eqn:E.
    + destruct (Pass2_parsed w st E) as [-> _].
      destruct (beep opts), (clean st); reflexivity.
    + rewrite (Pass2_garbled w E). reflexivity.
  - destruct (beep opts); reflexivity.
Qed.

(** Neither pass writes a "files changed" summary or the idle banner. *)
Lemma singleRun_writes (w : run_world) :
  summaries (trace (singleRun JSON_parse opts w)) = []
  /\ Stderr OIdle ∉ trace (singleRun JSON_parse opts w).
Proof.
  rewrite singleRun_trace, singleRun_passed_trace, singleRun_passed_settled.
  rewrite Pass1_unfold. unfold Pass2, spawnWebpack.
  destruct (lint_passed w), (JSON_parse (bundler_stdout w)) as [st|],
    (bundler_code w =? 0), (beep opts); cbn;
    try (destruct (st_errors st), (st_warnings st); cbn);
    (split; [reflexivity | absent]).
Qed.

(** The only rejection of a run carries the bundler's output. *)
Lemma singleRun_rejected (w : run_world) (e : thrown) :
  settled (singleRun JSON_parse opts w) = Rejected e ->
  lint_passed w = true
  /\ JSON_parse (bundler_stdout w) = None
  /\ e = ThrownString (bundler_stdout w).
Proof.
  rewrite singleRun_settled, singleRun_passed_settled.
  destruct (lint_passed w); [|discriminate].
  destruct (JSON_parse (bundler_stdout w)); [discriminate|].
  intros [= <-]. auto.
Qed.

End BuildFacts.

(** From here on [singleRun] is reasoned about through the lemmas above
    (closed instances are still evaluated). *)
#[global] Opaque singleRun.

(** Three runs on the sample inputs. *)
Example clean_run_passes :
  settled (singleRun_passed sample_parse sample_options clean_world)
  = Resolved (VBool true)
  /\ last (trace (singleRun sample_parse sample_options clean_world))
     = Some (Beep (BeepTimes 1)).
Proof. by vm_compute. Qed.

Example failing_lint_run_stops :
  singleRun sample_parse sample_options failing_lint_world
  = ([Stderr (OPass1Banner "development");
      Glob "*.js"; Lint JS "eslint" ["src/app.js"];
      Glob "*.html"; Lint HTML "htmlhint" [];
      Glob "*.css"; Lint CSS "stylelint" [];
      Glob "*.yaml"; Lint YAML "jsyaml" [];
      Glob "*.json"; Lint JSON "jsonlint" [];
      Stderr (OLintTable [(JS, 1, 1); (HTML, 0, 0); (CSS, 0, 0);
                          (YAML, 0, 0); (JSON, 0, 0)]%nat);
      Stderr (OLintDetails [one_finding]);
      Beep (BeepIntervals [0; 100; 500])],
     Resolved VUndefined).
Proof. by vm_compute. Qed.

Example garbled_run_is_rejected :
  singleRun sample_parse sample_options garbled_world
  = ([Stderr (OPass1Banner "development");
      Glob "*.js"; Lint JS "eslint" [];
      Glob "*.html"; Lint HTML "htmlhint" [];
      Glob "*.css"; Lint CSS "stylelint" [];
      Glob "*.yaml"; Lint YAML "jsyaml" [];
      Glob "*.json"; Lint JSON "jsonlint" [];
      Stderr (OLintTable [(JS, 0, 0); (HTML, 0, 0); (CSS, 0, 0);
                          (YAML, 0, 0); (JSON, 0, 0)]%nat);
      Stderr (OLintDetails []);
      Stderr (OPass2Banner "development");
      WriteFile wpcFile; Stderr OExecBundler;
      Spawn [webpackCli; "--config"; wpcFile; "--json"];
      Unlink wpcFile; Stderr (OParseError "not json")],
     Rejected (ThrownString "not json")).
Proof. by vm_compute. Qed.

(** ** Properties of the passes *)

(** C6. A lint pass calls the linters of all five categories, in the
    order JS, HTML, CSS, YAML, JSON, whatever each of them answers, and
    resolves with the bitwise AND of the five answers taken as 0 or 1:
    a value that is truthy exactly when every category passed. *)
Theorem Pass1_runs_every_linter (opts : options) (w : run_world) :
  linters_called (trace (Pass1 opts w)) = [JS; HTML; CSS; YAML; JSON]
  /\ settled (Pass1 opts w) =
       Resolved (VNumber
         (fold_left (fun acc c => Z.land acc (Z.b2z (lr_passed (lint_of w c))))
                    categories 1))
  /\ (forall v, settled (Pass1 opts w) = Resolved v ->
        truthy v = forallb (fun c => lr_passed (lint_of w c)) categories).
Proof.
  rewrite Pass1_unfold. split; [reflexivity|].
  assert (Hland : fold_left (fun acc c => Z.land acc (Z.b2z (lr_passed (lint_of w c))))
                    categories 1 = Z.b2z (lint_passed w)).
  { unfold lint_passed, categories. cbn [fold_left forallb].
    destruct (lr_passed (lint_of w JS)), (lr_passed (lint_of w HTML)),
      (lr_passed (lint_of w CSS)), (lr_passed (lint_of w YAML)),
      (lr_passed (lint_of w JSON)); reflexivity. }
  split.
  - cbn [settled snd]. by rewrite Hland.
  - intros v [= <-]. fold (lint_passed w). by destruct (lint_passed w).
Qed.



(** C2, as the code has it. [singleRun] resolves with [undefined]
    whenever it resolves, so no boolean is returned. The pass/fail
    flag it ends with (its variable [passed], which selects the beep)
    is [true] exactly when every linter passed and the bundler's
    output parses to a report with no error and no warning; it is the
    number 0 when a linter failed and [false] when the report has an
    error or a warning; when the output does not parse the run is
    rejected and leaves no flag. *)
Theorem singleRun_pass_flag
    (JSON_parse : string -> option stats) (opts : options) (w : run_world) :
  (settled (singleRun_passed JSON_parse opts w) = Resolved (VBool true) <->
     (forall c, lr_passed (lint_of w c) = true)
     /\ exists st, JSON_parse (bundler_stdout w) = Some st
                   /\ st_errors st = [] /\ st_warnings st = [])
  /\ settled (singleRun_passed JSON_parse opts w) =
       (if lint_passed w then
          match JSON_parse (bundler_stdout w) with
          | Some st => Resolved (VBool (clean st))
          | None => Rejected (ThrownString (bundler_stdout w))
          end
        else Resolved (VNumber 0))
  /\ settled (singleRun JSON_parse opts w) =
       match settled (singleRun_passed JSON_parse opts w) with
       | Resolved _ => Resolved VUndefined
       | Rejected e => Rejected e
       end.
Proof.
  split; [|split; [apply singleRun_passed_settled | apply singleRun_settled]].
  rewrite singleRun_passed_settled, <- lint_passed_spec.
  destruct (lint_passed w).
  - destruct (JSON_parse (bundler_stdout w)) as [st|].
    + unfold clean. split.
      * intros [= H]. split; [reflexivity|]. exists st.
        destruct (st_errors st), (st_warnings st); try discriminate. auto.
      * intros [_ (st' & [= <-] & -> & ->)]. reflexivity.
    + split; [discriminate|]. intros [_ (st' & [=] & _)].
  - split; [discriminate|]. intros [[=] _].
Qed.

(** C2, as stated, fails: with every category clean and a clean report
    [singleRun] resolves with [undefined], not with [true]; and with
    output that does not parse it returns no value at all. *)
Lemma singleRun_returns_no_boolean :
  lint_passed clean_world = true
  /\ sample_parse (bundler_stdout clean_world) = Some clean_stats
  /\ settled (singleRun sample_parse sample_options clean_world) = Resolved VUndefined
  /\ settled (singleRun sample_parse sample_options clean_world) <> Resolved (VBool true)
  /\ ~ (exists v, settled (singleRun sample_parse sample_options garbled_world)
                  = Resolved v).
Proof.
  repeat split; try by vm_compute.
  intros [v Hv]. vm_compute in Hv. discriminate.
Qed.

(** C9. [func] is rejected with the validation error, having done
    nothing at all, exactly when the environment is neither
    "production" nor "development"; no other path raises an Error. *)
Theorem env_validation
    (JSON_parse : string -> option stats) (opts : options) (w : run_world) :
  (env opts <> "production" /\ env opts <> "development" <->
     func JSON_parse opts w
     = ([], Settled (Rejected (invalid_environment (env opts)))))
  /\ (forall t m, func JSON_parse opts w = (t, Settled (Rejected (ThrownError m))) ->
        env opts <> "production" /\ env opts <> "development" /\ t = []).
Proof.
  assert (Hm : env_matches (env opts) = false <->
               env opts <> "production" /\ env opts <> "development").
  { unfold env_matches. rewrite orb_false_iff, !String.eqb_neq. reflexivity. }
  destruct (env_matches (env opts)) eqn:Hv.
  - assert (Hno : forall t e, func JSON_parse opts w = (t, Settled (Rejected e)) ->
                    t <> [] /\ forall m, e <> ThrownError m).
    { intros t e. unfold func. rewrite Hv. cbn [negb].
      destruct (watch opts); [intros [=]|].
      destruct (settled (singleRun JSON_parse opts w)) as [v|e'] eqn:E; [intros [=]|].
      apply singleRun_rejected in E as (_ & _ & ->). intros [= <- <-].
      split; [|intros m]; discriminate. }
    split; [split|].
    + intros H. apply Hm in H. discriminate.
    + intros H. apply Hno in H as [H _]. by destruct H.
    + intros t m H. apply Hno in H as [_ H]. by destruct (H m).
  - assert (Hf : func JSON_parse opts w
                 = ([], Settled (Rejected (invalid_environment (env opts))))).
    { unfold func. by rewrite Hv. }
    pose proof (proj1 Hm eq_refl) as [Hp Hd]. split; [split; auto|].
    intros t m H. rewrite Hf in H. injection H as <- _. auto.
Qed.

Lemma env_validation_witness :
  func sample_parse staging_options clean_world
  = ([], Settled (Rejected (invalid_environment "staging"))).
Proof.
  apply (env_validation sample_parse staging_options clean_world).
  split; discriminate.
Defined.

(** ** The watch loop *)

(** The handlers are unfolded where a proof asks for it, not by [cbn]. *)
#[local] Arguments reschedule : simpl never.
#[local] Arguments handler_start : simpl never.
#[local] Arguments handler_resume : simpl never.
#[local] Arguments on_all : simpl never.
#[local] Arguments on_ready : simpl never.
#[local] Arguments expire : simpl never.
#[local] Arguments clearTimeout : simpl never.

Section WatchFacts.

Variable JSON_parse : string -> option stats.
Variable opts : options.

Lemma exec_app (evs1 evs2 : list event) (s : watcher) :
  exec JSON_parse opts (evs1 ++ evs2) s =
    match exec JSON_parse opts evs1 s with
    | Some s' => exec JSON_parse opts evs2 s'
    | None => None
    end.
Proof.
  revert s. induction evs1 as [|e evs1 IH]; intros s; cbn; [reflexivity|].
  destruct (step JSON_parse opts s e); [apply IH | reflexivity].
Qed.

Lemma due_of_single (id id' : nat) (due due' : Z) :
  due_of id [(id', due')] = Some due -> id' = id /\ due' = due.
Proof.
  cbn. destruct (Nat.eqb_spec id' id); [|discriminate]. by intros [= ->].
Qed.

(** Under the invariant, clearing [timer] leaves no timeout outstanding. *)
Lemma reschedule_fields (delay : Z) (s : watcher) :
  inv s -> running s = false ->
  timeouts (reschedule delay s) = [(next_timeout s, clock s + delay)]
  /\ timer (reschedule delay s) = Some (next_timeout s)
  /\ next_timeout (reschedule delay s) = S (next_timeout s)
  /\ first (reschedule delay s) = first s
  /\ ready (reschedule delay s) = ready s
  /\ need (reschedule delay s) = need s
  /\ changed (reschedule delay s) = changed s
  /\ running (reschedule delay s) = running s
  /\ clock (reschedule delay s) = clock s
  /\ in_flight (reschedule delay s) = in_flight s
  /\ log (reschedule delay s) = log s.
Proof.
  intros (I1 & _) _. unfold reschedule.
  destruct I1 as [E | (id & due & E & Et & _)].
  - destruct (timer s); unfold clearTimeout; cbn; rewrite E; cbn; repeat split.
  - rewrite Et. unfold clearTimeout. cbn. rewrite E. cbn. rewrite Nat.eqb_refl. cbn.
    repeat split.
Qed.

(** The start of [handler], field by field. *)
Lemma handler_start_fields (s : watcher) :
  running (handler_start s) = true
  /\ first (handler_start s) = false
  /\ need (handler_start s) = false
  /\ changed (handler_start s) = Js.empty
  /\ in_flight (handler_start s) = S (in_flight s)
  /\ timeouts (handler_start s) = timeouts s
  /\ timer (handler_start s) = timer s
  /\ next_timeout (handler_start s) = next_timeout s
  /\ ready (handler_start s) = ready s
  /\ clock (handler_start s) = clock s
  /\ log (handler_start s) =
       log s ++ (if first s then []
                 else [Stderr (OFilesChanged (length (keys (changed s)))
                                             (keys (changed s)))]).
Proof.
  unfold handler_start. cbn. destruct (first s); cbn; repeat split; by rewrite ?app_nil_r.
Qed.

Lemma inv_start (written : list action) : inv (start_watching written).
Proof.
  unfold inv. cbn. repeat split; auto; discriminate.
Qed.

Lemma inv_reschedule (delay : Z) (s : watcher) :
  inv s -> running s = false -> ready s = true -> inv (reschedule delay s).
Proof.
  intros I Hr Hy.
  destruct (reschedule_fields delay s I Hr)
    as (Ht & Hi & Hn & _ & Hy' & _ & _ & Hr' & _ & Hf & _).
  destruct I as (_ & I2 & I3 & I4).
  unfold inv. rewrite Ht, Hi, Hn, Hy', Hr', Hf, Hr, Hy.
  split; [right; eauto 10|]. split; [intros id [= <-]; lia|]. split; [|done].
  by rewrite Hr in I3.
Qed.

(** The state in which [handler] goes on after a run that resolved. *)
Lemma inv_resumed (t1 t2 : list action) (s : watcher) :
  inv s -> in_flight s = 1%nat ->
  inv (set_running false
         (write t2 (write t1 (set_in_flight (pred (in_flight s)) s)))).
Proof.
  intros (I1 & I2 & I3 & I4) Hfl. unfold inv. cbn.
  rewrite Hfl in I3 |- *. destruct I3 as [|[_ Hr]]; [done|].
  destruct I1 as [E | (? & ? & _ & _ & ? & _)]; [|congruence].
  rewrite E. cbn. auto.
Qed.

Lemma inv_step (s s' : watcher) (e : event) :
  inv s -> step JSON_parse opts s e = Some s' -> inv s'.
Proof.
  intros I. pose proof I as (I1 & I2 & I3 & I4).
  destruct e as [d| |ev path|id|w]; cbn.
  - destruct (0 <=? d); intros [= <-]. exact I.
  - destruct (ready s) eqn:Hy; intros [= <-].
    destruct I1 as [E | (? & ? & _ & _ & _ & ?)]; [|congruence].
    unfold inv, on_ready. cbn. rewrite E. cbn.
    split; [right; eauto 10|]. split; [intros id [= <-]; lia|]. split; [|done].
    by rewrite (I4 eq_refl) in I3 |- *.
  - intros [= <-]. unfold on_all. destruct (ready s) eqn:Hy; [|exact I].
    cbn. destruct (running s) eqn:Hr; cbn.
    + unfold inv. cbn. rewrite Hr, Hy. auto.
    + apply inv_reschedule; [|done..].
      unfold inv. cbn. rewrite Hr, Hy. auto.
  - destruct (due_of id (timeouts s)) as [due|] eqn:Hd; [|discriminate].
    destruct (due <=? clock s); intros [= <-].
    destruct I1 as [E | (id' & due' & E & Et & Hr & Hy)]; [by rewrite E in Hd|].
    rewrite E in Hd. apply due_of_single in Hd as [-> ->].
    destruct (handler_start_fields (expire id s))
      as (Hr' & _ & _ & _ & Hf' & Ht' & Hi' & Hn' & Hy' & _).
    unfold inv. rewrite Hr', Hf', Ht', Hi', Hn', Hy'. unfold expire. cbn. rewrite E, Hy. cbn.
    rewrite Nat.eqb_refl.
    split; [by left|]. split; [exact I2|]. split; [|done].
    rewrite Hr in I3. destruct I3 as [-> | [_ ?]]; [by right | done].
  - destruct I3 as [Hf | [Hf1 Hr]]; [by rewrite Hf|].
    rewrite Hf1. cbn. intros [= <-].
    destruct I1 as [E | (? & ? & _ & _ & ? & _)]; [|congruence].
    assert (Hy : ready s = true).
    { destruct (ready s); [done|]. by rewrite (I4 eq_refl) in Hr. }
    unfold handler_resume.
    destruct (settled (singleRun JSON_parse opts w)).
    + cbn. destruct (need s).
      * apply inv_reschedule; [|done..]. unfold inv. cbn. rewrite E, Hf1. cbn. auto.
      * unfold inv. cbn. rewrite E, Hf1. cbn. auto.
    + unfold inv. cbn. rewrite E, Hf1, Hr, Hy. cbn. auto.
Qed.

Lemma inv_exec (evs : list event) (s s' : watcher) :
  inv s -> exec JSON_parse opts evs s = Some s' -> inv s'.
Proof.
  revert s. induction evs as [|e evs IH]; intros s I; cbn.
  - by intros [= <-].
  - destruct (step JSON_parse opts s e) as [s1|] eqn:E; [|discriminate].
    apply IH. by apply (inv_step s s1 e).
Qed.


(** [handler] after the run settled. *)
Lemma handler_resume_rejected (w : run_world) (s : watcher) (e : thrown) :
  settled (singleRun JSON_parse opts w) = Rejected e ->
  handler_resume JSON_parse opts w s =
    write (trace (singleRun JSON_parse opts w))
          (set_in_flight (pred (in_flight s)) s).
Proof. intros H. unfold handler_resume. by rewrite H. Qed.

Lemma handler_resume_resolved (w : run_world) (s : watcher) (v : value) :
  settled (singleRun JSON_parse opts w) = Resolved v ->
  handler_resume JSON_parse opts w s =
    let s1 := set_running false
                (write [Stderr OIdle]
                   (write (trace (singleRun JSON_parse opts w))
                      (set_in_flight (pred (in_flight s)) s))) in
    if need s then reschedule 0 s1 else s1.
Proof. intros H. unfold handler_resume. by rewrite H. Qed.

(** Keys of an object after an assignment. *)
Lemma keys_set (k : string) (v : bool) (o : object) (p : string) :
  p ∈ keys (Js.set k v o) <-> p = k \/ p ∈ keys o.
Proof.
  unfold keys. induction o as [|[k' v'] o IH]; cbn.
  - rewrite elem_of_cons, elem_of_nil. tauto.
  - destruct (decide (k' = k)) as [->|Hne]; cbn; rewrite !elem_of_cons.
    + tauto.
    + rewrite IH. tauto.
Qed.

Lemma keys_set_NoDup (k : string) (v : bool) (o : object) :
  NoDup (keys o) -> NoDup (keys (Js.set k v o)).
Proof.
  unfold keys. induction o as [|[k' v'] o IH]; cbn; intros Hnd.
  - apply NoDup_singleton.
  - apply NoDup_cons in Hnd as [Hni Hnd].
    destruct (decide (k' = k)) as [->|Hne]; cbn; apply NoDup_cons.
    + done.
    + split; [|by apply IH]. intros Hin. apply (keys_set k v o k') in Hin.
      destruct Hin as [->|Hin]; done.
Qed.

(** A change event before the watcher is ready. *)
Lemma on_all_unready (ev path : string) (s : watcher) :
  ready s = false -> on_all ev path s = s.
Proof. intros H. unfold on_all. by rewrite H. Qed.

(** A change event during a run: noted, nothing scheduled. *)
Lemma on_all_running (ev path : string) (s : watcher) :
  ready s = true -> running s = true ->
  on_all ev path s = set_changed (Js.set path true (changed s)) (set_need true s).
Proof. intros Hy Hr. unfold on_all. rewrite Hy. cbn. by rewrite Hr. Qed.

(** A change event while idle: noted, and the rerun is rescheduled. *)
Lemma on_all_idle (ev path : string) (s : watcher) :
  ready s = true -> running s = false ->
  on_all ev path s =
    reschedule 1000 (set_changed (Js.set path true (changed s)) (set_need true s)).
Proof. intros Hy Hr. unfold on_all. rewrite Hy. cbn. by rewrite Hr. Qed.

(** One change event of a burst, [d] after the state [s], while idle. *)
Lemma change_while_idle (d : Z) (ev path : string) (s : watcher) :
  inv s -> ready s = true -> running s = false -> 0 <= d ->
  exists s',
    exec JSON_parse opts [Elapse d; WatcherAll ev path] s = Some s'
    /\ inv s' /\ ready s' = true /\ running s' = false
    /\ clock s' = clock s + d
    /\ next_timeout s' = S (next_timeout s)
    /\ timeouts s' = [(next_timeout s, clock s' + 1000)]
    /\ timer s' = Some (next_timeout s)
    /\ need s' = true
    /\ changed s' = Js.set path true (changed s)
    /\ first s' = first s /\ in_flight s' = in_flight s /\ log s' = log s.
Proof.
  intros I Hy Hr Hd. cbn. destruct (Z.leb_spec 0 d) as [_|]; [|lia].
  rewrite on_all_idle by done.
  set (s1 := set_changed _ _).
  assert (I1 : inv s1) by exact I.
  destruct (reschedule_fields 1000 s1 I1 Hr)
    as (Ht & Hi & Hn & Hf & Hy' & Hne & Hc & Hr' & Hk & Hfl & Hl).
  eexists. split; [reflexivity|].
  split; [by apply inv_reschedule|].
  rewrite Ht, Hi, Hn, Hf, Hy', Hne, Hc, Hr', Hk, Hfl, Hl. by cbn.
Qed.


Lemma burst_events_cons (c : Z * string * string) (b : burst) :
  burst_events (c :: b) = [Elapse (gap c); WatcherAll c.1.2 (path_of c)] ++ burst_events b.
Proof. reflexivity. Qed.

(** A burst of change events while idle leaves exactly the timeout set
    by its last event. *)
Lemma burst_while_idle (b : burst) (s : watcher) :
  b <> [] -> inv s -> ready s = true -> running s = false ->
  Forall (fun c => 0 <= gap c) b ->
  exists s',
    exec JSON_parse opts (burst_events b) s = Some s'
    /\ inv s' /\ ready s' = true /\ running s' = false
    /\ clock s' = clock s + duration b
    /\ next_timeout s' = (next_timeout s + length b)%nat
    /\ timeouts s' = [(pred (next_timeout s'), clock s' + 1000)]
    /\ timer s' = Some (pred (next_timeout s'))
    /\ need s' = true
    /\ first s' = first s /\ in_flight s' = in_flight s /\ log s' = log s
    /\ (forall p, p ∈ keys (changed s') <->
                   p ∈ keys (changed s) \/ p ∈ map path_of b).
Proof.
  revert s. induction b as [|c rest IH]; intros s Hne I Hy Hr Hg; [done|].
  apply Forall_cons in Hg as [Hc Hrest].
  destruct (change_while_idle (gap c) c.1.2 (path_of c) s I Hy Hr Hc)
    as (s1 & E1 & I1 & Hy1 & Hr1 & Hk1 & Hn1 & Ht1 & Hi1 & Hne1 & Hch1 & Hf1 & Hfl1 & Hl1).
  rewrite burst_events_cons, exec_app, E1. rewrite Hk1 in Ht1.
  destruct rest as [|c' rest'].
  - exists s1. cbn [burst_events mbind list_bind exec duration foldr length map].
    rewrite Hn1, Hk1, Hch1, Hf1, Hfl1, Hl1, Ht1, Hi1.
    replace (next_timeout s + 1)%nat with (S (next_timeout s)) by lia.
    replace (clock s + (gap c + 0)) with (clock s + gap c) by lia.
    do 12 (split; [done|]).
    intros p. rewrite keys_set, elem_of_cons, elem_of_nil. tauto.
  - destruct (IH s1 ltac:(done) I1 Hy1 Hr1 Hrest)
      as (s' & E & I' & Hy' & Hr' & Hk' & Hn' & Ht' & Hi' & Hne' & Hf' & Hfl' & Hl' & Hch').
    exists s'. rewrite E, Hk', Hn', Hf', Hfl', Hl'.
    split; [done|]. split; [done|]. split; [done|]. split; [done|].
    split; [cbn [duration foldr] in *; lia|].
    split; [cbn [length] in *; lia|].
    rewrite Hn' in Ht', Hi'.
    split; [by rewrite Ht', Hk'|].
    do 5 (split; [done|]).
    intros p. rewrite Hch', Hch1, keys_set. cbn [map]. rewrite (elem_of_cons _ p (path_of c)).
    tauto.
Qed.



Lemma exec_snoc (evs : list event) (e : event) (s s' : watcher) :
  exec JSON_parse opts (evs ++ [e]) s = Some s' <->
  exists s1, exec JSON_parse opts evs s = Some s1 /\ step JSON_parse opts s1 e = Some s'.
Proof.
  rewrite exec_app. destruct (exec JSON_parse opts evs s) as [s1|].
  - cbn. destruct (step JSON_parse opts s1 e) as [s2|] eqn:E; split.
    + intros [= <-]. eauto.
    + intros (? & [= <-] & H). congruence.
    + done.
    + intros (? & [= <-] & H). congruence.
  - split; [done|]. by intros (? & ? & _).
Qed.

Lemma has_run_snoc (evs : list event) (e : event) :
  has_run (evs ++ [e]) = has_run evs || is_run_start e.
Proof. unfold has_run. rewrite existsb_app. cbn. by rewrite orb_false_r. Qed.

Lemma paths_since_run_snoc (evs : list event) (e : event) :
  paths_since_run (evs ++ [e]) =
    match e with
    | TimerFires _ => []
    | WatcherAll _ path => paths_since_run evs ++ [path]
    | _ => paths_since_run evs
    end.
Proof. unfold paths_since_run. by rewrite fold_left_app. Qed.

(** The change set against the history of events: before the first
    run [first] is set; afterwards the keys of [changed] are the paths
    of the change events since the last run started. *)
Lemma changed_history (written : list action) (evs : list event) (s : watcher) :
  exec JSON_parse opts evs (start_watching written) = Some s ->
  first s = negb (has_run evs)
  /\ NoDup (keys (changed s))
  /\ (has_run evs = true -> ready s = true)
  /\ (has_run evs = true ->
        forall p, p ∈ keys (changed s) <-> p ∈ paths_since_run evs).
Proof.
  revert s. induction evs as [|e evs IH] using rev_ind; intros s.
  - intros [= <-]. cbn. split; [done|]. split; [apply NoDup_nil_2|]. done.
  - rewrite exec_snoc. intros (s1 & E1 & Hs).
    pose proof (inv_exec _ _ _ (inv_start written) E1) as I1.
    destruct (IH s1 E1) as (Hf & Hnd & Hy & Hch). clear IH.
    rewrite has_run_snoc, paths_since_run_snoc.
    destruct e as [d| |ev path|id|w]; cbn in Hs; cbn [is_run_start];
      rewrite ?orb_false_r, ?orb_true_r.
    + destruct (0 <=? d); [|done]. by injection Hs as <-.
    + destruct (ready s1); [done|]. injection Hs as <-. unfold on_ready. cbn.
      split; [done|]. split; [done|]. split; [done|]. exact Hch.
    + injection Hs as <-. destruct (ready s1) eqn:Hy1.
      * assert (Hc : changed (on_all ev path s1) = Js.set path true (changed s1)
                     /\ first (on_all ev path s1) = first s1
                     /\ ready (on_all ev path s1) = true).
        { destruct (running s1) eqn:Hr1.
          - by rewrite on_all_running.
          - rewrite on_all_idle by done.
            set (s2 := set_changed _ _).
            destruct (reschedule_fields 1000 s2 I1 Hr1)
              as (_ & _ & _ & -> & -> & _ & -> & _). done. }
        destruct Hc as (-> & -> & ->).
        split; [done|]. split; [by apply keys_set_NoDup|]. split; [done|].
        intros Hh p. rewrite keys_set, elem_of_app, list_elem_of_singleton, (Hch Hh).
        tauto.
      * rewrite on_all_unready by done. rewrite Hy1.
        split; [done|]. split; [done|]. split; [exact Hy|].
        intros Hh. by specialize (Hy Hh).
    + destruct (due_of id (timeouts s1)) as [due|] eqn:Hd; [|done].
      destruct (_ <=? _); [|done]. injection Hs as <-.
      destruct (handler_start_fields (expire id s1))
        as (_ & -> & _ & -> & _ & _ & _ & _ & -> & _).
      split; [done|]. split; [apply NoDup_nil_2|].
      split.
      * intros _. destruct I1 as ([E | (? & ? & _ & _ & _ & Hy1)] & _).
        -- by rewrite E in Hd.
        -- exact Hy1.
      * intros _ p. unfold keys. cbn. done.
    + destruct (in_flight s1) as [|n] eqn:Hfl; [done|]. cbn in Hs. injection Hs as <-.
      assert (Hc : changed (handler_resume JSON_parse opts w s1) = changed s1
                   /\ first (handler_resume JSON_parse opts w s1) = first s1
                   /\ ready (handler_resume JSON_parse opts w s1) = ready s1).
      { destruct (settled (singleRun JSON_parse opts w)) as [v|e] eqn:Hw.
        - rewrite (handler_resume_resolved w s1 v Hw). cbn zeta.
          destruct (need s1); [|done].
          set (s2 := set_running _ _).
          assert (I2 : inv s2).
          { apply inv_resumed; [done|]. destruct I1 as (_ & _ & [?|[? _]] & _); congruence. }
          destruct (reschedule_fields 0 s2 I2 eq_refl)
            as (_ & _ & _ & -> & -> & _ & -> & _). done.
        - by rewrite (handler_resume_rejected w s1 e Hw). }
      destruct Hc as (-> & -> & ->). done.
Qed.




End WatchFacts.

(** ** Properties of the watch loop *)

Lemma reachable_inv (JSON_parse : string -> option stats) (opts : options)
    (written : list action) (evs : list event) (s : watcher) :
  exec JSON_parse opts evs (start_watching written) = Some s -> inv s.
Proof. apply inv_exec, inv_start. Qed.

(** In watch mode [func] hands over to the watcher in its initial state. *)
Example func_starts_watching :
  func sample_parse watch_options clean_world
  = ([Stderr OHeader; Watch], Watching sample_watcher).
Proof. reflexivity. Qed.

(** A session: the first run starts without a summary; a change during
    it and two after it make the second run start with a summary of the
    two distinct paths. *)
Example watch_session_summaries :
  exists s,
    exec sample_parse watch_options
         [WatcherReady; TimerFires 0; WatcherAll "change" "src/a.js";
          RunSettles clean_world; WatcherAll "change" "src/b.js";
          WatcherAll "change" "src/a.js"; Elapse 1000; TimerFires 3]
         sample_watcher = Some s
    /\ summaries (log s) = [["src/a.js"; "src/b.js"]]
    /\ running s = true /\ timeouts s = [].
Proof. eexists. split; [by vm_compute|]. by vm_compute. Qed.

(** C10. A change event that arrives before the ready event leaves
    the watcher exactly as it was: no path noted, [need] not set, no
    timeout set or cleared. *)
Theorem early_change_is_discarded
    (JSON_parse : string -> option stats) (opts : options)
    (s : watcher) (ev path : string) :
  ready s = false ->
  step JSON_parse opts s (WatcherAll ev path) = Some s.
Proof. intros H. cbn. by rewrite on_all_unready. Qed.

Lemma early_change_is_discarded_witness :
  ready sample_watcher = false
  /\ step sample_parse watch_options sample_watcher (WatcherAll "change" "src/app.js")
     = Some sample_watcher.
Proof.
  split; [reflexivity|].
  apply (early_change_is_discarded sample_parse watch_options sample_watcher).
  reflexivity.
Defined.









(** C3. A burst of one or more change events that reaches the watcher
    while it is ready and idle, each event less than the settle delay
    after the one before, leaves exactly one timeout outstanding: a new
    one (the one outstanding before is gone), due 1000 ms after the
    last event; it cannot fire earlier, and when it fires it starts one
    run. Within the burst no timeout comes due between two events, and
    each event replaces the timeout of the event before it by its own. *)
Theorem burst_schedules_one_rerun
    (JSON_parse : string -> option stats) (opts : options)
    (written : list action) (evs : list event) (s : watcher)
    (c : Z * string * string) (rest : burst) :
  exec JSON_parse opts evs (start_watching written) = Some s ->
  ready s = true -> running s = false ->
  0 <= gap c ->
  Forall (fun c' => 0 <= gap c' < 1000) rest ->
  exists s' id,
    exec JSON_parse opts (burst_events (c :: rest)) s = Some s'
    /\ timeouts s' = [(id, clock s' + 1000)]
    /\ timer s' = Some id
    /\ clock s' = clock s + duration (c :: rest)
    /\ (forall id' due', (id', due') ∈ timeouts s -> id' <> id)
    /\ (forall d, 0 <= d < 1000 ->
          exec JSON_parse opts [Elapse d; TimerFires id] s' = None)
    /\ (forall d, 1000 <= d ->
          exists s'', exec JSON_parse opts [Elapse d; TimerFires id] s' = Some s''
                      /\ running s'' = true /\ in_flight s'' = 1%nat
                      /\ timeouts s'' = [])
    /\ (forall b1 c' b2, rest = b1 ++ c' :: b2 ->
          exists s1 s2 id1,
            exec JSON_parse opts (burst_events (c :: b1)) s = Some s1
            /\ timeouts s1 = [(id1, clock s1 + 1000)]
            /\ (forall i, exec JSON_parse opts [Elapse (gap c'); TimerFires i] s1 = None)
            /\ exec JSON_parse opts (burst_events [c']) s1 = Some s2
            /\ timeouts s2 = [(S id1, clock s2 + 1000)]).
Proof.
  intros E Hy Hr Hc Hrest.
  pose proof (reachable_inv _ _ _ _ _ E) as I.
  assert (Hgaps : forall b, Forall (fun c' => 0 <= gap c' < 1000) b ->
                            Forall (fun c' => 0 <= gap c') (c :: b)).
  { intros b Hb. apply Forall_cons. split; [done|].
    eapply Forall_impl; [exact Hb|]. cbn. lia. }
  destruct (burst_while_idle JSON_parse opts (c :: rest) s ltac:(done) I Hy Hr
              (Hgaps rest Hrest))
    as (s' & E' & I' & Hy' & Hr' & Hk' & Hn' & Ht' & Hi' & _ & _ & Hfl' & _).
  exists s', (pred (next_timeout s')).
  split; [exact E'|]. split; [exact Ht'|]. split; [exact Hi'|]. split; [exact Hk'|].
  split.
  { intros id' due' Hin. destruct I as (I1 & I2 & _).
    destruct I1 as [E0 | (id0 & due0 & E0 & Et & _)]; rewrite E0 in Hin.
    - by apply elem_of_nil in Hin.
    - apply list_elem_of_singleton in Hin as [= -> ->].
      specialize (I2 _ Et). rewrite Hn'. cbn [length]. lia. }
  split.
  { intros d Hd. cbn. destruct (Z.leb_spec 0 d); [|lia]. cbn.
    rewrite Ht'. cbn. rewrite Nat.eqb_refl.
    destruct (Z.leb_spec (clock s' + 1000) (clock s' + d)); [lia|done]. }
  split.
  { intros d Hd. cbn. destruct (Z.leb_spec 0 d); [|lia]. cbn.
    rewrite Ht'. cbn. rewrite Nat.eqb_refl.
    destruct (Z.leb_spec (clock s' + 1000) (clock s' + d)); [|lia].
    eexists. split; [reflexivity|].
    destruct (handler_start_fields
                (expire (pred (next_timeout s')) (set_clock (clock s' + d) s')))
      as (-> & _ & _ & _ & -> & -> & _).
    unfold expire. cbn. rewrite Ht', Hfl'. cbn. rewrite Nat.eqb_refl.
    destruct I as (_ & _ & I3 & _). rewrite Hr in I3.
    by destruct I3 as [-> | [_ ?]]. }
  intros b1 c' b2 ->.
  apply Forall_app in Hrest as [Hb1 Hb2]. apply Forall_cons in Hb2 as [Hc' _].
  destruct (burst_while_idle JSON_parse opts (c :: b1) s ltac:(done) I Hy Hr
              (Hgaps b1 Hb1))
    as (s1 & E1 & I1 & Hy1 & Hr1 & Hk1 & Hn1 & Ht1 & _).
  destruct (change_while_idle JSON_parse opts (gap c') c'.1.2 (path_of c') s1
              I1 Hy1 Hr1 ltac:(lia))
    as (s2 & E2 & _ & _ & _ & _ & _ & Ht2 & _).
  exists s1, s2, (pred (next_timeout s1)).
  split; [exact E1|]. split; [exact Ht1|].
  split.
  { intros i. cbn. destruct (Z.leb_spec 0 (gap c')); [|lia]. cbn.
    rewrite Ht1. cbn. destruct (_ =? i)%nat; [|done].
    destruct (Z.leb_spec (clock s1 + 1000) (clock s1 + gap c')); [lia|done]. }
  split; [exact E2|].
  rewrite Ht2. do 2 f_equal. rewrite Hn1. cbn [length]. lia.
Qed.

Lemma burst_schedules_one_rerun_witness :
  exists s s' id,
    exec sample_parse watch_options
         [WatcherReady; TimerFires 0; RunSettles clean_world] sample_watcher = Some s
    /\ exec sample_parse watch_options
            (burst_events [(200, "change", "src/a.js"); (300, "add", "src/b.js")]) s
       = Some s'
    /\ timeouts s' = [(id, clock s' + 1000)]
    /\ clock s' = clock s + 500.
Proof.
  destruct (exec sample_parse watch_options _ sample_watcher) as [s|] eqn:E;
    [|by vm_compute in E].
  assert (Hs : ready s = true /\ running s = false).
  { pose proof E as E0. vm_compute in E0. injection E0 as E0. by subst s. }
  destruct (burst_schedules_one_rerun sample_parse watch_options
              [Stderr OHeader; Watch] _ s (200, "change", "src/a.js")
              [(300, "add", "src/b.js")] E (proj1 Hs) (proj2 Hs))
    as (s' & id & E' & Ht & _ & Hk & _).
  - by vm_compute.
  - repeat constructor; by vm_compute.
  - exists s, s', id. eauto.
Defined.



(** ** Further properties of the watch loop *)

Section ScheduleFacts.

Variable JSON_parse : string -> option stats.
Variable opts : options.

(** What [reschedule] leaves alone, in any state. *)
Lemma reschedule_keeps (delay : Z) (s : watcher) :
  first (reschedule delay s) = first s
  /\ ready (reschedule delay s) = ready s
  /\ need (reschedule delay s) = need s
  /\ changed (reschedule delay s) = changed s
  /\ running (reschedule delay s) = running s
  /\ clock (reschedule delay s) = clock s
  /\ in_flight (reschedule delay s) = in_flight s
  /\ log (reschedule delay s) = log s.
Proof. unfold reschedule. destruct (timer s); cbn; repeat split. Qed.

(** The events that can happen in a state that satisfies [inv], and
    the state each leads to. *)
Lemma step_cases (s s' : watcher) (e : event) :
  inv s -> step JSON_parse opts s e = Some s' ->
  (exists d, e = Elapse d /\ 0 <= d /\ s' = set_clock (clock s + d) s)
  \/ (e = WatcherReady /\ ready s = false /\ running s = false
      /\ timeouts s = [] /\ s' = on_ready s)
  \/ (exists ev path, e = WatcherAll ev path /\ s' = on_all ev path s)
  \/ (exists id due, e = TimerFires id /\ timeouts s = [(id, due)]
        /\ due <= clock s /\ running s = false /\ ready s = true
        /\ in_flight s = 0%nat /\ s' = handler_start (expire id s))
  \/ (exists w, e = RunSettles w /\ in_flight s = 1%nat /\ running s = true
        /\ ready s = true /\ timeouts s = []
        /\ s' = handler_resume JSON_parse opts w s).
Proof.
  intros (I1 & I2 & I3 & I4). destruct e as [d| |ev path|id|w]; cbn.
  - destruct (Z.leb_spec 0 d); intros [= <-]. left. eauto.
  - destruct (ready s) eqn:Hy; intros [= <-]. right. left.
    destruct I1 as [E | (? & ? & _ & _ & _ & ?)]; [|congruence]. auto.
  - intros [= <-]. right. right. left. eauto.
  - destruct (due_of id (timeouts s)) as [due|] eqn:Hd; [|done].
    destruct (Z.leb_spec due (clock s)); intros [= <-].
    destruct I1 as [E | (id' & due' & E & Et & Hr & Hy)]; [by rewrite E in Hd|].
    rewrite E in Hd. apply due_of_single in Hd as [-> ->].
    right. right. right. left. exists id, due.
    rewrite Hr in I3. destruct I3 as [Hf | [_ ?]]; [|done]. auto 10.
  - destruct I3 as [Hf | [Hf Hr]]; [by rewrite Hf|]. rewrite Hf. cbn.
    intros [= <-]. right. right. right. right. exists w.
    destruct I1 as [E | (? & ? & _ & _ & ? & _)]; [|congruence].
    assert (Hy : ready s = true).
    { destruct (ready s); [done|]. by rewrite (I4 eq_refl) in Hr. }
    auto 10.
Qed.

Lemma set_nonempty (k : string) (v : bool) (o : object) : Js.set k v o <> Js.empty.
Proof. destruct o as [|[k' v'] o]; cbn; [done|]. by destruct (decide (k' = k)). Qed.

Lemma inv_schedule_start (written : list action) :
  inv_schedule (start_watching written).
Proof.
  unfold inv_schedule. cbn. split; [intros ? ? H; by apply elem_of_nil in H|].
  split; [split; [done|congruence]|]. split; [done|]. split; [auto|done].
Qed.

Lemma inv_schedule_rescheduled (delay : Z) (s : watcher) :
  inv s -> running s = false -> ready s = true -> 0 <= delay <= 1000 ->
  need s = true -> changed s <> Js.empty ->
  inv_schedule (reschedule delay s).
Proof.
  intros I Hr Hy Hd Hn Hc.
  destruct (reschedule_fields delay s I Hr)
    as (Ht & _ & _ & Hf & Hy' & Hn' & Hc' & Hr' & Hk & _).
  unfold inv_schedule. rewrite Ht, Hf, Hy', Hn', Hc', Hk, Hn, Hy.
  split; [intros id due Hin; apply list_elem_of_singleton in Hin as [= _ ->]; lia|].
  split; [done|]. split; [done|]. split; [auto|done].
Qed.

Lemma inv_schedule_step (s s' : watcher) (e : event) :
  inv s -> inv_schedule s -> step JSON_parse opts s e = Some s' -> inv_schedule s'.
Proof.
  intros I J Hs. pose proof J as (A & B & C & D & F).
  destruct (step_cases s s' e I Hs)
    as [(d & -> & Hd & ->)
       |[(-> & Hy & Hr & Ht & ->)
        |[(ev & path & -> & ->)
         |[(id & due & -> & Ht & Hdue & Hr & Hy & Hf & ->)
          |(w & -> & Hf & Hr & Hy & Ht & ->)]]]].
  - unfold inv_schedule. cbn. split; [|done].
    intros id due Hin. specialize (A id due Hin). lia.
  - unfold inv_schedule, on_ready. cbn. rewrite Ht. cbn.
    split; [intros id due Hin; apply list_elem_of_singleton in Hin as [= _ ->]; lia|].
    split; [done|]. split; [done|]. split; [|done].
    intros _. left. destruct (first s) eqn:Hf; [done|]. by rewrite (F eq_refl) in Hy.
  - destruct (ready s) eqn:Hy; [|by rewrite on_all_unready].
    destruct (running s) eqn:Hr.
    + rewrite on_all_running by done. unfold inv_schedule. cbn. rewrite Hr, Hy.
      split; [done|]. split; [split; [intros _; apply set_nonempty|done]|].
      split; [done|]. split; [auto|]. done.
    + rewrite on_all_idle by done.
      apply inv_schedule_rescheduled;
        [exact I | exact Hr | exact Hy | lia | reflexivity | apply set_nonempty].
  - destruct (handler_start_fields (expire id s))
      as (Hr' & Hf' & Hn' & Hc' & _ & Ht' & _ & _ & Hy' & Hk' & _).
    unfold inv_schedule. rewrite Hr', Hf', Hn', Hc', Ht', Hy', Hk'.
    unfold expire. cbn. rewrite Ht. cbn. rewrite Nat.eqb_refl.
    split; [intros ? ? H; by apply elem_of_nil in H|].
    split; [split; [done|congruence]|]. split; [done|]. split; [done|]. by intros _.
  - destruct (settled (singleRun JSON_parse opts w)) as [v|e] eqn:Hw.
    + rewrite (handler_resume_resolved _ _ w s v Hw). cbn zeta.
      set (s1 := set_running false _).
      assert (I1 : inv s1) by (by apply inv_resumed).
      destruct (need s) eqn:Hn.
      * apply inv_schedule_rescheduled;
          [exact I1 | reflexivity | exact Hy | lia | exact Hn | by apply B].
      * unfold inv_schedule. subst s1. cbn. rewrite Ht, Hn, Hy.
        split; [intros ? ? H; by apply elem_of_nil in H|].
        split; [done|]. done.
    + rewrite (handler_resume_rejected _ _ w s e Hw).
      unfold inv_schedule. cbn. rewrite Hr, Ht, Hy.
      split; [intros ? ? H; by apply elem_of_nil in H|]. done.
Qed.


Lemma reachable_inv_schedule (written : list action) (evs : list event) (s : watcher) :
  exec JSON_parse opts evs (start_watching written) = Some s ->
  inv s /\ inv_schedule s.
Proof.
  assert (H : forall evs s0 s, inv s0 -> inv_schedule s0 ->
                exec JSON_parse opts evs s0 = Some s -> inv s /\ inv_schedule s).
  { clear. intros evs. induction evs as [|e evs IH]; intros s0 s I J; cbn.
    - by intros [= <-].
    - destruct (step JSON_parse opts s0 e) as [s1|] eqn:E; [|done].
      apply IH; [by apply (inv_step JSON_parse opts s0 s1 e)
                |by apply (inv_schedule_step s0 s1 e)]. }
  apply H; [apply inv_start | apply inv_schedule_start].
Qed.

(** While [running] is set with no run in flight, only time can pass
    and changes can be noted. *)
Lemma stalled_step (s s' : watcher) (e : event) :
  ready s = true -> running s = true -> in_flight s = 0%nat -> timeouts s = [] ->
  step JSON_parse opts s e = Some s' ->
  is_run_start e = false
  /\ (forall w, e <> RunSettles w)
  /\ ready s' = true /\ running s' = true /\ in_flight s' = 0%nat
  /\ timeouts s' = [] /\ log s' = log s.
Proof.
  intros Hy Hr Hf Ht. destruct e as [d| |ev path|id|w]; cbn.
  - destruct (0 <=? d); intros [= <-]. by cbn.
  - by rewrite Hy.
  - intros [= <-]. rewrite on_all_running by done. by cbn.
  - by rewrite Ht.
  - by rewrite Hf.
Qed.

End ScheduleFacts.

(** X1. In every state the watcher can reach at most one timeout is
    outstanding; [timer] holds its id, which was handed out before;
    it is due within the settle delay; and while it is outstanding
    the watcher is ready and no run is going on. *)
Theorem at_most_one_timeout
    (JSON_parse : string -> option stats) (opts : options)
    (written : list action) (evs : list event) (s : watcher) :
  exec JSON_parse opts evs (start_watching written) = Some s ->
  (length (timeouts s) <= 1)%nat
  /\ (forall id due, (id, due) ∈ timeouts s ->
        timer s = Some id /\ (id < next_timeout s)%nat
        /\ due <= clock s + 1000
        /\ running s = false /\ ready s = true).
Proof.
  intros E. destruct (reachable_inv_schedule _ _ _ _ _ E) as ((I1 & I2 & _) & (A & _)).
  destruct I1 as [Ht | (id0 & due0 & Ht & Hi & Hr & Hy)]; rewrite Ht in *.
  - split; [cbn; lia|]. intros ? ? H. by apply elem_of_nil in H.
  - split; [cbn; lia|]. intros id due Hin. specialize (A id due Hin).
    apply list_elem_of_singleton in Hin as [= -> ->]. auto.
Qed.

Lemma at_most_one_timeout_witness :
  exists s,
    exec sample_parse watch_options
         [WatcherReady; WatcherAll "change" "src/a.js"; Elapse 500;
          WatcherAll "change" "src/b.js"] sample_watcher = Some s
    /\ timeouts s = [(2%nat, 1500)]
    /\ (length (timeouts s) <= 1)%nat.
Proof.
  destruct (exec sample_parse watch_options _ sample_watcher) as [s|] eqn:E;
    [|by vm_compute in E].
  exists s. split; [reflexivity|]. split.
  - pose proof E as E0. vm_compute in E0. injection E0 as E0. by subst s.
  - apply (at_most_one_timeout sample_parse watch_options [Stderr OHeader; Watch] _ s E).
Defined.



(** X3. No pending change is left without a rerun: in every reachable
    state in which [need] is set and no run is going on, a timeout is
    outstanding, due at most 1000 ms from now. *)
Theorem pending_change_is_scheduled
    (JSON_parse : string -> option stats) (opts : options)
    (written : list action) (evs : list event) (s : watcher) :
  exec JSON_parse opts evs (start_watching written) = Some s ->
  need s = true -> running s = false ->
  exists id due, timeouts s = [(id, due)] /\ timer s = Some id
                 /\ due <= clock s + 1000.
Proof.
  intros E Hn Hr.
  destruct (reachable_inv_schedule _ _ _ _ _ E) as ((I1 & _) & (A & _ & C & _)).
  specialize (C Hn Hr).
  destruct I1 as [Ht | (id & due & Ht & Hi & _)]; [done|].
  exists id, due. split; [done|]. split; [done|]. apply (A id). rewrite Ht.
  by apply list_elem_of_singleton.
Qed.

Lemma pending_change_is_scheduled_witness :
  exists s id due,
    exec sample_parse watch_options
         [WatcherReady; TimerFires 0; WatcherAll "change" "src/a.js";
          RunSettles clean_world] sample_watcher = Some s
    /\ timeouts s = [(id, due)] /\ due <= clock s + 1000.
Proof.
  destruct (exec sample_parse watch_options _ sample_watcher) as [s|] eqn:E;
    [|by vm_compute in E].
  assert (Hs : need s = true /\ running s = false).
  { pose proof E as E0. vm_compute in E0. injection E0 as E0. by subst s. }
  destruct (pending_change_is_scheduled sample_parse watch_options
              [Stderr OHeader; Watch] _ s E (proj1 Hs) (proj2 Hs))
    as (id & due & Ht & _ & Hd).
  exists s, id, due. auto.
Defined.

(** X4. No rerun is scheduled without a reason: in every reachable
    state with a timeout outstanding, either the first build has not
    started yet or a change is pending. *)
Theorem timeout_has_a_reason
    (JSON_parse : string -> option stats) (opts : options)
    (written : list action) (evs : list event) (s : watcher) :
  exec JSON_parse opts evs (start_watching written) = Some s ->
  timeouts s <> [] -> first s = true \/ need s = true.
Proof.
  intros E. by destruct (reachable_inv_schedule _ _ _ _ _ E) as (_ & (_ & _ & _ & D & _)).
Qed.

Lemma timeout_has_a_reason_witness :
  exists s,
    exec sample_parse watch_options [WatcherReady] sample_watcher = Some s
    /\ (first s = true \/ need s = true).
Proof.
  destruct (exec sample_parse watch_options _ sample_watcher) as [s|] eqn:E;
    [|by vm_compute in E].
  exists s. split; [reflexivity|].
  apply (timeout_has_a_reason sample_parse watch_options [Stderr OHeader; Watch] _ s E).
  pose proof E as E0. vm_compute in E0. injection E0 as E0. by subst s.
Defined.

Section HistoryFacts.

Variable JSON_parse : string -> option stats.
Variable opts : options.

(** What one event adds to what was written. *)
Lemma step_log (s s' : watcher) (e : event) :
  step JSON_parse opts s e = Some s' ->
  log s' =
    log s ++
    match e with
    | TimerFires _ =>
        if first s then []
        else [Stderr (OFilesChanged (length (keys (changed s))) (keys (changed s)))]
    | RunSettles w =>
        trace (singleRun JSON_parse opts w)
        ++ match settled (singleRun JSON_parse opts w) with
           | Resolved _ => [Stderr OIdle]
           | Rejected _ => []
           end
    | _ => []
    end.
Proof.
  destruct e as [d| |ev path|id|w]; cbn.
  - destruct (0 <=? d); intros [= <-]. cbn. by rewrite app_nil_r.
  - destruct (ready s); intros [= <-]. unfold on_ready. cbn. by rewrite app_nil_r.
  - intros [= <-]. rewrite app_nil_r. unfold on_all.
    destruct (ready s); [|done]. cbn. destruct (running s); [done|]. cbn.
    match goal with |- context [reschedule 1000 ?x] =>
      by destruct (reschedule_keeps 1000 x) as (_ & _ & _ & _ & _ & _ & _ & ->) end.
  - destruct (due_of id (timeouts s)); [|done]. destruct (_ <=? _); intros [= <-].
    by destruct (handler_start_fields (expire id s))
      as (_ & _ & _ & _ & _ & _ & _ & _ & _ & _ & ->).
  - destruct (in_flight s); [done|]. cbn. intros [= <-].
    destruct (settled (singleRun JSON_parse opts w)) as [v|e] eqn:Hw.
    + rewrite (handler_resume_resolved _ _ w s v Hw). cbn zeta.
      destruct (need s).
      * match goal with |- context [reschedule 0 ?x] =>
          destruct (reschedule_keeps 0 x) as (_ & _ & _ & _ & _ & _ & _ & ->) end.
        cbn. by rewrite app_assoc.
      * cbn. by rewrite app_assoc.
    + rewrite (handler_resume_rejected _ _ w s e Hw). cbn. by rewrite app_nil_r.
Qed.


Lemma stalled_exec (evs : list event) (s s' : watcher) :
  ready s = true -> running s = true -> in_flight s = 0%nat -> timeouts s = [] ->
  exec JSON_parse opts evs s = Some s' ->
  has_run evs = false
  /\ (forall w, RunSettles w ∉ evs)
  /\ running s' = true /\ in_flight s' = 0%nat
  /\ timeouts s' = [] /\ log s' = log s.
Proof.
  revert s. induction evs as [|e evs IH]; intros s Hy Hr Hf Ht; cbn [exec].
  - intros [= <-]. split; [done|]. split; [|done]. intros w H. by apply elem_of_nil in H.
  - destruct (step JSON_parse opts s e) as [s1|] eqn:E; [|done]. intros E'.
    change (has_run (e :: evs)) with (is_run_start e || has_run evs).
    destruct (stalled_step _ _ s s1 e Hy Hr Hf Ht E) as (He & Hw & Hy1 & Hr1 & Hf1 & Ht1 & Hl1).
    destruct (IH s1 Hy1 Hr1 Hf1 Ht1 E') as (Hh & Hw' & ? & ? & ? & Hl).
    rewrite He, Hh. split; [done|]. split; [|by rewrite Hl].
    intros w [Heq|Hin]%elem_of_cons; [by apply (Hw w)|by apply (Hw' w)].
Qed.

Lemma count_app {A} (p : A -> bool) (l1 l2 : list A) :
  count p (l1 ++ l2) = (count p l1 + count p l2)%nat.
Proof. unfold count. by rewrite List.filter_app, length_app. Qed.

Lemma has_run_count (evs : list event) :
  has_run evs = negb (count is_run_start evs =? 0)%nat.
Proof.
  unfold has_run, count. induction evs as [|e evs IH]; [done|]. cbn.
  destruct (is_run_start e); [done|]. by rewrite IH.
Qed.

Lemma no_idle_banner (t : list action) :
  Stderr OIdle ∉ t -> count is_idle_banner t = 0%nat.
Proof.
  unfold count. induction t as [|a t IH]; [done|]. intros Hn.
  apply not_elem_of_cons in Hn as [Ha Ht]. cbn.
  destruct a as [[]| | | | | | | |]; cbn; try by apply IH. done.
Qed.

Lemma count_single {A} (p : A -> bool) (a : A) :
  count p [a] = if p a then 1%nat else 0%nat.
Proof. unfold count. cbn. by destruct (p a). Qed.

Lemma summaries_app (t1 t2 : list action) :
  summaries (t1 ++ t2) = summaries t1 ++ summaries t2.
Proof. apply omap_app. Qed.

(** The summaries and idle banners written in the course of events. *)
Lemma log_history (written : list action) (evs : list event) (s : watcher) :
  exec JSON_parse opts evs (start_watching written) = Some s ->
  length (summaries (log s))
  = (length (summaries written) + pred (count is_run_start evs))%nat
  /\ count is_idle_banner (log s)
     = (count is_idle_banner written
        + count (is_resolved_run JSON_parse opts) evs)%nat.
Proof.
  revert s. induction evs as [|e evs IH] using rev_ind; intros s.
  - intros [= <-]. change (log (start_watching written)) with written.
    change (count is_run_start []) with 0%nat.
    change (count (is_resolved_run JSON_parse opts) []) with 0%nat.
    cbn [pred]. split; lia.
  - rewrite exec_snoc. intros (s1 & E1 & Hs).
    destruct (IH s1 E1) as [IHs IHi]. clear IH.
    destruct (changed_history JSON_parse opts written evs s1 E1) as (Hf & _).
    rewrite has_run_count in Hf.
    rewrite (step_log s1 s e Hs), !count_app, !count_single, summaries_app, length_app.
    rewrite IHs, IHi.
    destruct e as [d| |ev path|id|w]; cbn [is_run_start is_resolved_run].
    1-3: change (summaries []) with (@nil (list string));
         change (count is_idle_banner []) with 0%nat; cbn [length]; split; lia.
    + rewrite Hf. destruct (count is_run_start evs) as [|n]; cbn [Nat.eqb negb].
      * change (summaries []) with (@nil (list string)).
        change (count is_idle_banner []) with 0%nat. cbn [length]. split; lia.
      * rewrite count_single. cbn [is_idle_banner summaries omap length].
        cbn. split; lia.
    + destruct (singleRun_writes JSON_parse opts w) as [Hsum Hidle].
      rewrite summaries_app, Hsum, count_app, (no_idle_banner _ Hidle).
      destruct (settled (singleRun JSON_parse opts w)).
      * rewrite count_single. cbn. split; lia.
      * change (count is_idle_banner []) with 0%nat. cbn. split; lia.
Qed.


End HistoryFacts.

(** X5. Once a run was rejected the watcher stays as it is for good:
    from a reachable state with [running] set and no run in flight,
    whatever happens afterwards, no run starts and none settles,
    [running] stays set, no timeout is set and nothing more is written. *)
Theorem rejected_run_stalls_for_good
    (JSON_parse : string -> option stats) (opts : options)
    (written : list action) (evs evs' : list event) (s s' : watcher) :
  exec JSON_parse opts evs (start_watching written) = Some s ->
  running s = true -> in_flight s = 0%nat ->
  exec JSON_parse opts evs' s = Some s' ->
  has_run evs' = false
  /\ (forall w, RunSettles w ∉ evs')
  /\ running s' = true /\ in_flight s' = 0%nat
  /\ timeouts s' = [] /\ log s' = log s.
Proof.
  intros E Hr Hf E'.
  pose proof (reachable_inv _ _ _ _ _ E) as (I1 & _ & _ & I4).
  apply (stalled_exec JSON_parse opts evs' s s'); try done.
  - destruct (ready s); [done|]. by rewrite (I4 eq_refl) in Hr.
  - destruct I1 as [? | (? & ? & _ & _ & ? & _)]; [done|congruence].
Qed.

Lemma rejected_run_stalls_for_good_witness :
  exists s s',
    exec sample_parse watch_options
         [WatcherReady; TimerFires 0; RunSettles garbled_world] sample_watcher = Some s
    /\ exec sample_parse watch_options
            [WatcherAll "change" "src/a.js"; Elapse 5000;
             WatcherAll "change" "src/b.js"] s = Some s'
    /\ running s' = true /\ timeouts s' = [] /\ log s' = log s.
Proof.
  destruct (exec sample_parse watch_options _ sample_watcher) as [s|] eqn:E;
    [|by vm_compute in E].
  assert (Hs : running s = true /\ in_flight s = 0%nat).
  { pose proof E as E0. vm_compute in E0. injection E0 as E0. by subst s. }
  destruct (exec sample_parse watch_options
              [WatcherAll "change" "src/a.js"; Elapse 5000;
               WatcherAll "change" "src/b.js"] s) as [s'|] eqn:E'.
  - exists s, s'. split; [reflexivity|]. split; [exact E'|].
    destruct (rejected_run_stalls_for_good sample_parse watch_options
                [Stderr OHeader; Watch] _ _ s s' E (proj1 Hs) (proj2 Hs) E')
      as (_ & _ & ? & _ & ? & ?). auto.
  - exfalso. pose proof E as E0. vm_compute in E0. injection E0 as E0. subst s.
    vm_compute in E'. discriminate E'.
Defined.



(** X7. Every run after the first writes one "files changed" summary
    and nothing else ever writes one: what a reachable watcher has
    written holds as many summaries as runs were started, less the
    first (besides those written before the watcher was set up). *)
Theorem one_summary_per_rerun
    (JSON_parse : string -> option stats) (opts : options)
    (written : list action) (evs : list event) (s : watcher) :
  exec JSON_parse opts evs (start_watching written) = Some s ->
  length (summaries (log s))
  = (length (summaries written) + pred (count is_run_start evs))%nat.
Proof. intros E. apply (log_history JSON_parse opts written evs s E). Qed.

Lemma one_summary_per_rerun_witness :
  exists s,
    exec sample_parse watch_options
         [WatcherReady; TimerFires 0; WatcherAll "change" "src/a.js";
          RunSettles clean_world; TimerFires 1; RunSettles clean_world]
         sample_watcher = Some s
    /\ length (summaries (log s)) = 1%nat.
Proof.
  destruct (exec sample_parse watch_options _ sample_watcher) as [s|] eqn:E;
    [|by vm_compute in E].
  exists s. split; [reflexivity|].
  by rewrite (one_summary_per_rerun sample_parse watch_options
                [Stderr OHeader; Watch] _ s E).
Defined.

(** X8. The idle banner is written once for every run that resolves,
    and never otherwise: a reachable watcher has written as many idle
    banners as runs have resolved. *)
Theorem one_idle_banner_per_resolved_run
    (JSON_parse : string -> option stats) (opts : options)
    (written : list action) (evs : list event) (s : watcher) :
  exec JSON_parse opts evs (start_watching written) = Some s ->
  count is_idle_banner (log s)
  = (count is_idle_banner written
     + count (is_resolved_run JSON_parse opts) evs)%nat.
Proof. intros E. apply (log_history JSON_parse opts written evs s E). Qed.

Lemma one_idle_banner_per_resolved_run_witness :
  exists s,
    exec sample_parse watch_options
         [WatcherReady; TimerFires 0; WatcherAll "change" "src/a.js";
          RunSettles clean_world; TimerFires 1; RunSettles garbled_world]
         sample_watcher = Some s
    /\ count is_idle_banner (log s) = 1%nat.
Proof.
  destruct (exec sample_parse watch_options _ sample_watcher) as [s|] eqn:E;
    [|by vm_compute in E].
  exists s. split; [reflexivity|].
  rewrite (one_idle_banner_per_resolved_run sample_parse watch_options
             [Stderr OHeader; Watch] _ s E).
  by vm_compute.
Defined.



(** ** Further properties of the passes *)

Section PassFacts.

Variable JSON_parse : string -> option stats.
Variable opts : options.

(** [Pass2] when the output parses: what is written, by the errors and
    warnings of the report. *)
Lemma Pass2_report (w : run_world) (st : stats) :
  JSON_parse (bundler_stdout w) = Some st ->
  trace (Pass2 JSON_parse opts w) =
    [Stderr (OPass2Banner (env opts)); WriteFile wpcFile; Stderr OExecBundler;
     Spawn ([webpackCli; "--config"; wpcFile; "--json"]
            ++ (if debug opts then ["--debug"] else []));
     Unlink wpcFile; Stderr ONewline]
    ++ match st_errors st with
       | [] => [Stderr (OEntries (st_entrypoints st));
                Stderr (OChunks (st_chunks st));
                Stderr (OModules (st_modules st))]
       | _ :: _ => [Stderr (OErrors (st_errors st))]
       end
    ++ match st_warnings st with
       | [] => []
       | _ :: _ => [Stderr (OWarnings (st_warnings st))]
       end.
Proof.
  intros H. unfold Pass2, spawnWebpack. rewrite H.
  destruct (bundler_code w =? 0); cbn;
    destruct (st_errors st), (st_warnings st); reflexivity.
Qed.

Lemma Pass2_code (code : Z) (w : run_world) :
  Pass2 JSON_parse opts (with_code code w) = Pass2 JSON_parse opts w.
Proof.
  unfold Pass2, spawnWebpack. cbn [with_code bundler_stdout bundler_code].
  destruct (JSON_parse (bundler_stdout w)); [|reflexivity].
  by destruct (code =? 0), (bundler_code w =? 0).
Qed.

Lemma singleRun_pair (w : run_world) :
  singleRun JSON_parse opts w
  = (trace (singleRun_passed JSON_parse opts w),
     match settled (singleRun_passed JSON_parse opts w) with
     | Resolved _ => Resolved VUndefined
     | Rejected e => Rejected e
     end).
Proof.
  rewrite <- singleRun_trace, <- singleRun_settled.
  by destruct (singleRun JSON_parse opts w).
Qed.

(** The parts of what a run does, for counting. *)
Lemma singleRun_parts (w : run_world) :
  trace (singleRun JSON_parse opts w) =
    (Stderr (OPass1Banner (env opts))
     :: (categories ≫= fun c =>
           [Glob (ext_of c); Lint c (proc_of c) (lr_files (lint_of w c))])
     ++ [Stderr (OLintTable (map (mkstat w) categories));
         Stderr (OLintDetails (all_findings w))])
    ++ (if lint_passed w then trace (Pass2 JSON_parse opts w) else [])
    ++ match settled (singleRun_passed JSON_parse opts w) with
       | Resolved v =>
           if beep opts
           then [Beep (if truthy v then BeepTimes 1 else BeepIntervals [0; 100; 500])]
           else []
       | Rejected _ => []
       end.
Proof. by rewrite singleRun_trace, singleRun_passed_trace, Pass1_unfold. Qed.


Lemma Pass2_counts (w : run_world) :
  files_written (trace (Pass2 JSON_parse opts w)) = [wpcFile]
  /\ files_unlinked (trace (Pass2 JSON_parse opts w)) = [wpcFile]
  /\ spawned (trace (Pass2 JSON_parse opts w))
     = [[webpackCli; "--config"; wpcFile; "--json"]
        ++ (if debug opts then ["--debug"] else [])]
  /\ beeps (trace (Pass2 JSON_parse opts w)) = [].
Proof.
  destruct (JSON_parse (bundler_stdout w)) as [st|] eqn:E.
  - rewrite (Pass2_report w st E).
    by destruct (st_errors st), (st_warnings st).
  - by rewrite (Pass2_garbled JSON_parse opts w E).
Qed.

End PassFacts.


(** X11. The exit code of the bundler has no influence on a run: with
    any other exit code the run does the same and settles the same. *)
Theorem exit_code_is_ignored
    (JSON_parse : string -> option stats) (opts : options)
    (code : Z) (w : run_world) :
  singleRun JSON_parse opts (with_code code w) = singleRun JSON_parse opts w.
Proof.
  rewrite !singleRun_pair.
  assert (H : singleRun_passed JSON_parse opts (with_code code w)
              = singleRun_passed JSON_parse opts w).
  { unfold singleRun_passed. by rewrite Pass2_code. }
  by rewrite H.
Qed.

(** X12. A run beeps at most once, and only when beeping is asked for:
    once for success if it ends with a truthy [passed], with the
    failure pattern if it ends with a falsy one, and not at all if it
    is rejected. *)
Theorem beep_tells_the_result
    (JSON_parse : string -> option stats) (opts : options) (w : run_world) :
  beeps (trace (singleRun JSON_parse opts w))
  = if beep opts then
      match settled (singleRun_passed JSON_parse opts w) with
      | Resolved v => [if truthy v then BeepTimes 1 else BeepIntervals [0; 100; 500]]
      | Rejected _ => []
      end
    else [].
Proof.
  rewrite singleRun_parts.
  destruct (Pass2_counts JSON_parse opts w) as (_ & _ & _ & Hb).
  unfold beeps in *. rewrite !omap_app.
  replace (omap _ (if lint_passed w then trace (Pass2 JSON_parse opts w) else []))
    with (@nil beep_arg) by (by destruct (lint_passed w)).
  cbn. destruct (settled _), (beep opts); reflexivity.
Qed.



(** X14. What the bundling pass reports depends on the errors alone
    for the tables: with a report that parses, the three tables are
    written exactly when it has no errors and the errors exactly when
    it has some; the warnings are written whenever there are any; and
    the pass yields [true] exactly when there are neither. *)
Theorem bundle_report_sections
    (JSON_parse : string -> option stats) (opts : options)
    (w : run_world) (st : stats) :
  JSON_parse (bundler_stdout w) = Some st ->
  trace (Pass2 JSON_parse opts w) =
    [Stderr (OPass2Banner (env opts)); WriteFile wpcFile; Stderr OExecBundler;
     Spawn ([webpackCli; "--config"; wpcFile; "--json"]
            ++ (if debug opts then ["--debug"] else []));
     Unlink wpcFile; Stderr ONewline]
    ++ match st_errors st with
       | [] => [Stderr (OEntries (st_entrypoints st));
                Stderr (OChunks (st_chunks st));
                Stderr (OModules (st_modules st))]
       | _ :: _ => [Stderr (OErrors (st_errors st))]
       end
    ++ match st_warnings st with
       | [] => []
       | _ :: _ => [Stderr (OWarnings (st_warnings st))]
       end
  /\ settled (Pass2 JSON_parse opts w)
     = Resolved (VBool match st_errors st, st_warnings st with
                       | [], [] => true
                       | _, _ => false
                       end).
Proof.
  intros H. split; [by apply Pass2_report|].
  destruct (Pass2_parsed JSON_parse opts w st H) as (-> & _). unfold clean.
  by destruct (st_errors st), (st_warnings st).
Qed.

Lemma bundle_report_sections_witness :
  settled (Pass2 sample_parse sample_options clean_world) = Resolved (VBool true).
Proof.
  by rewrite (proj2 (bundle_report_sections sample_parse sample_options
                       clean_world clean_stats eq_refl)).
Defined.

(** ** The text helpers *)

Module TextFacts.
Import Text.

Lemma replace_newlines_line (l rest : text) :
  LF ∉ l -> replace_newlines (l ++ rest) = l ++ replace_newlines rest.
Proof.
  induction l as [|a l IH]; [done|]. intros Hn.
  apply not_elem_of_cons in Hn as [Ha Hl]. cbn.
  destruct (N.eqb_spec a LF) as [->|_]; [done|]. by rewrite IH.
Qed.

Lemma replace_newlines_skip (c : N) (rest : text) :
  is_line_terminator c = true ->
  replace_newlines (LF :: c :: rest) = LF :: replace_newlines (c :: rest).
Proof. intros H. cbn [replace_newlines]. by rewrite N.eqb_refl, H. Qed.

Lemma replace_newlines_indent (c : N) (rest : text) :
  is_line_terminator c = false ->
  replace_newlines (LF :: c :: rest)
  = LF :: space :: space :: space :: c :: replace_newlines rest.
Proof. intros H. cbn [replace_newlines]. by rewrite N.eqb_refl, H. Qed.

Lemma join_lines_next (l0 l : text) (ls : list text) :
  join_lines (l0 :: l :: ls) = l0 ++ LF :: join_lines (l :: ls).
Proof. reflexivity. Qed.

Lemma join_lines_head (c : N) (l : text) (ls : list text) :
  join_lines ((c :: l) :: ls) = c :: join_lines (l :: ls).
Proof. by destruct ls. Qed.

(** The replacement of [/\n(.)/g], line by line. *)
Lemma replace_newlines_lines (ls : list text) (l0 : text) :
  LF ∉ l0 -> Forall (fun l => LF ∉ l) ls ->
  replace_newlines (join_lines (l0 :: ls)) = join_lines (l0 :: map indent_line ls).
Proof.
  revert l0. induction ls as [|l ls IH]; intros l0 H0 Hls.
  - cbn. rewrite <- (app_nil_r l0) at 1. rewrite replace_newlines_line by done.
    by rewrite app_nil_r.
  - apply Forall_cons in Hls as [Hl Hls].
    cbn [map]. rewrite !join_lines_next, replace_newlines_line by done. f_equal.
    destruct l as [|c l'].
    + destruct ls as [|l2 ls']; [reflexivity|].
      rewrite join_lines_next. cbn [app].
      rewrite replace_newlines_skip by reflexivity. f_equal.
      change (indent_line []) with (@nil N).
      rewrite <- (IH [] ltac:(apply not_elem_of_nil) Hls).
      by rewrite join_lines_next.
    + apply not_elem_of_cons in Hl as [Hc Hl'].
      rewrite join_lines_head. unfold indent_line.
      destruct (is_line_terminator c) eqn:Ht.
      * rewrite replace_newlines_skip by done. f_equal.
        rewrite <- join_lines_head. apply IH; [|done].
        apply not_elem_of_cons. done.
      * rewrite replace_newlines_indent by done. cbn [app].
        rewrite !join_lines_head. do 5 f_equal. by apply IH.
Qed.

Lemma split_lines_cases (t : text) :
  exists l ls, split_lines t = l :: ls.
Proof.
  induction t as [|c t (l & ls & IH)]; cbn; [eauto|].
  destruct (c =? LF)%N; [eauto|]. rewrite IH. eauto.
Qed.

Lemma split_lines_join (t : text) :
  join_lines (split_lines t) = t /\ Forall (fun l => LF ∉ l) (split_lines t).
Proof.
  induction t as [|c t [IHj IHf]]; cbn.
  - split; [done|]. constructor; [apply not_elem_of_nil|constructor].
  - destruct (split_lines_cases t) as (l & ls & E). rewrite E in *.
    destruct (N.eqb_spec c LF) as [->|Hc].
    + split; [by rewrite join_lines_next, IHj|].
      constructor; [apply not_elem_of_nil|done].
    + split; [by rewrite join_lines_head, IHj|].
      apply Forall_cons in IHf as [Hl Hls]. constructor; [|done].
      apply not_elem_of_cons. done.
Qed.

Lemma behind_last_bang_cut (s t : text) :
  behind_last_bang s = Some t ->
  behind_last_bang t = None
  /\ exists p, s = p ++ bang :: t
               /\ Forall (fun c => is_line_terminator c = false) p.
Proof.
  revert t. induction s as [|c rest IH]; intros t; cbn; [done|].
  destruct (is_line_terminator c) eqn:Hc; [done|].
  destruct (behind_last_bang rest) as [t'|] eqn:E.
  - intros [= <-]. destruct (IH t' eq_refl) as (Hn & p & -> & Hp).
    split; [done|]. exists (c :: p). split; [done|]. by constructor.
  - destruct (N.eqb_spec c bang) as [->|_]; [|done]. intros [= <-].
    split; [done|]. exists []. split; [done|]. constructor.
Qed.

Lemma behind_last_bang_none (s : text) :
  behind_last_bang s = None ->
  Forall (fun c => is_line_terminator c = false) s -> bang ∉ s.
Proof.
  induction s as [|c rest IH]; cbn; [intros _ _; apply not_elem_of_nil|].
  intros H Hs. apply Forall_cons in Hs as [Hc Hs]. rewrite Hc in H.
  destruct (behind_last_bang rest); [done|].
  destruct (N.eqb_spec c bang) as [->|Hne]; [done|].
  apply not_elem_of_cons. split; [congruence|by apply IH].
Qed.

End TextFacts.

(** X15. [mktable] indents the rendered table line by line: the first
    line gets three spaces in front in any case, every further line
    gets them if it is not empty (and does not begin with another line
    terminator than the line feed); nothing else is changed. *)
Theorem mktable_indents_each_line
    (D : Type) (table : D -> Text.text) (data : D) :
  Text.mktable table data
  = Text.join_lines (Text.indent_lines (Text.split_lines (table data))).
Proof.
  unfold Text.mktable, Text.replace_start.
  destruct (TextFacts.split_lines_join (table data)) as [Hj Hf].
  destruct (TextFacts.split_lines_cases (table data)) as (l & ls & E).
  rewrite E in *. rewrite <- Hj at 1. apply Forall_cons in Hf as [Hl Hls].
  cbn [Text.indent_lines].
  assert (Hsp : Text.LF ∉ [Text.space; Text.space; Text.space] ++ l).
  { rewrite elem_of_app. intros [H|H]; [|done].
    repeat (apply elem_of_cons in H as [H|H]; [discriminate H|]).
    by apply elem_of_nil in H. }
  transitivity (Text.replace_newlines
                  (Text.join_lines
                     (([Text.space; Text.space; Text.space] ++ l) :: ls))).
  - f_equal. by destruct ls.
  - by apply TextFacts.replace_newlines_lines.
Qed.

(** X16. Cutting the loaders off a module identifier removes a front
    part that ends with [!] and holds no line terminator, or nothing;
    what is left has no [!] on its first line, so that cutting again
    changes nothing, and has none at all if the identifier is a single
    line. *)
Theorem strip_loaders_cuts_through_last_bang (name : Text.text) :
  (exists cut, name = cut ++ Text.strip_loaders name
               /\ (cut = []
                   \/ exists p, cut = p ++ [Text.bang]
                        /\ Forall (fun c => Text.is_line_terminator c = false) p))
  /\ Text.behind_last_bang (Text.strip_loaders name) = None
  /\ Text.strip_loaders (Text.strip_loaders name) = Text.strip_loaders name
  /\ (Forall (fun c => Text.is_line_terminator c = false) name ->
      Text.bang ∉ Text.strip_loaders name).
Proof.
  destruct (Text.behind_last_bang name) as [t|] eqn:E.
  - assert (Hs : Text.strip_loaders name = t)
      by (unfold Text.strip_loaders; by rewrite E).
    rewrite Hs.
    destruct (TextFacts.behind_last_bang_cut name t E) as (Hn & p & Hname & Hp).
    split.
    { exists (p ++ [Text.bang]). split; [by rewrite <- app_assoc|eauto]. }
    split; [done|]. split; [unfold Text.strip_loaders; by rewrite Hn|].
    intros Hf. apply TextFacts.behind_last_bang_none; [done|].
    rewrite Hname in Hf.
    apply Forall_app in Hf as [_ Hf]. by apply Forall_cons in Hf as [_ Hf].
  - assert (Hs : Text.strip_loaders name = name)
      by (unfold Text.strip_loaders; by rewrite E).
    rewrite Hs.
    split; [exists []; auto|]. split; [done|]. split; [done|].
    by apply TextFacts.behind_last_bang_none.
Qed.

(** X17. The message that the progress callback hands to the bar is
    never longer than 43 code units: a message of at most 40 units is
    passed on as it is, a longer one is cut to its first 40 units with
    three dots behind; in both cases its first 40 units are those of
    the message. The line feed is written exactly when the bar says
    it is complete. *)
Theorem progress_message_is_clipped
    (number : Type) (plus minus : number -> number -> number)
    (of_rounds : nat -> number)
    (rounds : nat) (progressCur : number) (complete : bool)
    (fraction : number) (msg : Text.text) :
  let r := Text.progress number plus minus of_rounds
             rounds progressCur complete fraction msg in
  (length (Text.tick_msg number r.1.1) <= 43)%nat
  /\ take 40 (Text.tick_msg number r.1.1) = take 40 msg
  /\ ((length msg <= 40)%nat -> Text.tick_msg number r.1.1 = msg)
  /\ ((40 < length msg)%nat ->
      Text.tick_msg number r.1.1 = take 40 msg ++ [Text.dot; Text.dot; Text.dot])
  /\ r.1.2 = complete.
Proof.
  cbn. unfold Text.clip_message.
  destruct (Nat.ltb_spec 40 (length msg)) as [Hl|Hl].
  - split; [rewrite length_app, length_take; cbn [length]; lia|].
    split; [rewrite take_app_le by (rewrite length_take; lia);
            rewrite take_take; f_equal; lia|].
    split; [lia|done].
  - split; [lia|]. split; [done|]. split; [done|]. split; [lia|done].
Qed.

(** The helpers on sample texts. *)
Example mktable_sample :
  Text.mktable (fun _ : unit =>
                  Text.of_string "ab" ++ [Text.LF; Text.LF]
                  ++ Text.of_string "cd" ++ [Text.LF]) tt
  = Text.of_string "   ab" ++ [Text.LF; Text.LF]
    ++ Text.of_string "   cd" ++ [Text.LF].
Proof. reflexivity. Qed.

Example mktable_of_nothing :
  Text.mktable (fun _ : unit => []) tt = Text.of_string "   ".
Proof. reflexivity. Qed.

Example strip_loaders_sample :
  Text.strip_loaders (Text.of_string "babel-loader!css-loader?modules!/src/app.css")
  = Text.of_string "/src/app.css".
Proof. reflexivity. Qed.

Example strip_loaders_first_line_only :
  Text.strip_loaders (Text.of_string "a!b" ++ [Text.LF] ++ Text.of_string "c!d")
  = Text.of_string "b" ++ [Text.LF] ++ Text.of_string "c!d".
Proof. reflexivity. Qed.

(** ** From the start of the watcher *)

Section StartFacts.

Variable JSON_parse : string -> option stats.
Variable opts : options.

(** Without the ready event only the clock moves. *)
Lemma unready_exec (evs : list event) (s s' : watcher) :
  ready s = false -> timeouts s = [] -> in_flight s = 0%nat ->
  WatcherReady ∉ evs ->
  exec JSON_parse opts evs s = Some s' ->
  s' = set_clock (clock s') s /\ has_run evs = false /\ clock s <= clock s'.
Proof.
  revert s. induction evs as [|e evs IH]; intros s Hy Ht Hf Hn; cbn [exec].
  - intros [= <-]. split; [by destruct s|]. split; [done|lia].
  - apply not_elem_of_cons in Hn as [He Hn].
    destruct (step JSON_parse opts s e) as [s1|] eqn:E; [|done]. intros E'.
    change (has_run (e :: evs)) with (is_run_start e || has_run evs).
    destruct e as [d| |ev path|id|w]; cbn in E.
    + destruct (Z.leb_spec 0 d); [|done]. injection E as <-.
      destruct (IH (set_clock (clock s + d) s) Hy Ht Hf Hn E') as (Hs & Hh & Hk).
      cbn in Hk. split; [by rewrite Hs at 1|]. split; [done|lia].
    + done.
    + injection E as <-. rewrite on_all_unready in E' by done.
      by destruct (IH s Hy Ht Hf Hn E') as (Hs & Hh & Hk).
    + by rewrite Ht in E.
    + by rewrite Hf in E.
Qed.



End StartFacts.

(** X18. Before the ready event nothing happens: whatever changes are
    reported and however much time passes, the watcher stays in its
    initial state but for the clock; no run starts, nothing is noted,
    scheduled or written. *)
Theorem nothing_before_ready
    (JSON_parse : string -> option stats) (opts : options)
    (written : list action) (evs : list event) (s : watcher) :
  WatcherReady ∉ evs ->
  exec JSON_parse opts evs (start_watching written) = Some s ->
  s = set_clock (clock s) (start_watching written)
  /\ has_run evs = false.
Proof.
  intros Hn E.
  destruct (unready_exec JSON_parse opts evs (start_watching written) s
              eq_refl eq_refl eq_refl Hn E)
    as (Hs & Hh & _).
  split; [exact Hs|exact Hh].
Qed.

Lemma nothing_before_ready_witness :
  exists s,
    exec sample_parse watch_options
         [WatcherAll "add" "src/a.js"; Elapse 3000; WatcherAll "change" "src/a.js"]
         sample_watcher = Some s
    /\ s = set_clock (clock s) sample_watcher.
Proof.
  destruct (exec sample_parse watch_options _ sample_watcher) as [s|] eqn:E;
    [|by vm_compute in E].
  exists s. split; [reflexivity|].
  apply (nothing_before_ready sample_parse watch_options [Stderr OHeader; Watch]
           [WatcherAll "add" "src/a.js"; Elapse 3000; WatcherAll "change" "src/a.js"] s);
    [|exact E].
  intros H. repeat (apply elem_of_cons in H as [H|H]; [discriminate H|]).
  by apply elem_of_nil in H.
Defined.




